(** * shorrt: a URL shortener (main.go), embedded in Rocq

    The handlers of main.go are embedded as state-passing functions over an
    explicit model of the three collaborators they talk to: the SQLite table
    [urls], the Redis cache and the directory of QR code images.  Failures of
    the collaborators are inputs of every call (record [Env]). *)

From Stdlib Require Import ZArith Lia String Ascii List Bool.
From stdpp Require Import base option list strings gmap.

Local Open Scope string_scope.
Local Open Scope Z_scope.

(** ** Random tokens (main.go, lines 36-53) *)

Module Token.

Definition shortLinkLength : nat := 6.
Definition charset : string :=
  "abcdefghijklmnopqrstuvwxyzABCDEFGHIJKLMNOPQRSTUVWXYZ0123456789".

(** [seededRand]: the math/rand source.  The library is not part of the
    repository; a source is the sequence of raw values it is going to yield
    (fixed by the seed) and a cursor into it. *)
Record Rand : Type := mkRand { raw : nat -> Z; cursor : nat }.

(** [seededRand.Intn(n)]: a value from 0 up to n - 1; panics when [n <= 0]. *)
Definition Intn (r : Rand) (n : Z) : option (Z * Rand) :=
  if n <=? 0 then None
  else Some (raw r (cursor r) `mod` n, mkRand (raw r) (S (cursor r))).

(** The loop [for i := range b { b[i] = charset[seededRand.Intn(len(charset))] }]
    over a buffer of [n] bytes still to fill.  [None] is a panic (of [Intn],
    or of the index expression out of range). *)
Fixpoint fill (n : nat) (cs : string) (r : Rand) : option (list ascii * Rand) :=
  match n with
  | O => Some ([], r)
  | S n' =>
      '(k, r1) ← Intn r (Z.of_nat (String.length cs));
      c ← String.get (Z.to_nat k) cs;
      '(b, r2) ← fill n' cs r1;
      Some (c :: b, r2)
  end.

Definition stringWithCharset (length : nat) (cs : string) (r : Rand)
  : option (string * Rand) :=
  '(b, r') ← fill length cs r;
  Some (string_of_list_ascii b, r').

Definition generateShortLink (r : Rand) : option (string * Rand) :=
  stringWithCharset shortLinkLength charset r.

(** The alphanumeric alphabet a-z, A-Z, 0-9, by character code. *)
Definition is_alnum (c : ascii) : bool :=
  let n := nat_of_ascii c in
  ((97 <=? n)%nat && (n <=? 122)%nat)
  || ((65 <=? n)%nat && (n <=? 90)%nat)
  || ((48 <=? n)%nat && (n <=? 57)%nat).

(** All 256 bytes, to count the alphabet. *)
Definition all_bytes : list ascii := map ascii_of_nat (seq 0 256).

End Token.

(** ** The data model, the collaborators and the handlers *)

Module Shorrt.
Import Token.

(** *** Values *)

(** A [time.Time] is the number of seconds since the Unix epoch.  The zero
    value [time.Time{}] is January 1 of year 1, 00:00:00 UTC; it is what JSON
    binding leaves in [ExpirationDate] when the body has no
    [expiration_date]. *)
Definition zeroTime : Z := -62135596800.

(** [t.Before(u)] *)
Definition Before (t u : Z) : bool := t <? u.

(** Go's [int] (64 bits, two's complement): [x + 1] wraps around. *)
Definition maxInt : Z := 2 ^ 63 - 1.
Definition minInt : Z := - 2 ^ 63.
Definition wrap_int (z : Z) : Z := (z + 2 ^ 63) `mod` 2 ^ 64 - 2 ^ 63.

(** [type URL struct] (lines 19-27) *)
Record URL : Type := mkURL {
  ID : Z;
  Original : string;
  Short : string;
  QRCode : string;
  CustomShort : string;
  ExpirationDate : Z;
  AccessCount : Z
}.

(** A row of the table [urls] (lines 69-77).  [custom_short] and
    [expiration_date] are nullable columns ([None] is NULL); [access_count]
    has DEFAULT 0 and is never written as NULL. *)
Record Row : Type := mkRow {
  id : Z;
  original : string;
  short : string;
  qr_code : string;
  custom_short : option string;
  expiration_date : option Z;
  access_count : Z
}.

(** The errors the collaborators hand back ([err.Error()] is what a response
    or a log line shows of them). *)
Inductive error : Type :=
| ErrBind                       (* c.BindJSON *)
| ErrValidation                 (* validate.Struct *)
| ErrQRCode                     (* qrcode.WriteFile *)
| ErrUnique (column : string)   (* UNIQUE constraint failed: <column> *)
| ErrStore                      (* any other failure of the database *)
| ErrScanNull                   (* Scan of NULL into a plain Go value *)
| ErrNoRows                     (* sql.ErrNoRows *)
| ErrCache.                     (* a failure of Redis other than redis.Nil *)

(** [log.Println(msg, x)] *)
Inductive LogEntry : Type :=
| LogErr (msg : string) (e : error)
| LogStr (msg : string) (s : string).

(** What a handler writes to the [gin.Context]. *)
Inductive Body : Type :=
| BErr (e : error)          (* gin.H{"error": err.Error()} *)
| BMsg (s : string)         (* gin.H{"error": "..."} *)
| BURL (u : URL)
| BURLs (l : list URL).

Inductive Response : Type :=
| JSON (code : Z) (b : Body)
| Redirect (code : Z) (location : string)
| Abort (code : Z).          (* gin.Recovery() after a panic *)

Definition StatusOK : Z := 200.
Definition StatusMovedPermanently : Z := 301.
Definition StatusBadRequest : Z := 400.
Definition StatusNotFound : Z := 404.
Definition StatusGone : Z := 410.
Definition StatusInternalServerError : Z := 500.

(** *** State and environment *)

(** The package-level handles: [db] (the table and its AUTOINCREMENT
    sequence), [rdb], the files under qrcodes/, [seededRand], and what has
    been logged. *)
Record State : Type := mkState {
  db : list Row;
  db_seq : Z;
  rdb : gmap string string;
  qrcodes : gmap string string;
  seededRand : Rand;
  logged : list LogEntry
}.

(** What the outside decides during one request: the clock and which calls
    to a collaborator fail. *)
Record Env : Type := mkEnv {
  now : Z;                (* time.Now() *)
  qr_fails : bool;        (* qrcode.WriteFile *)
  insert_fails : bool;    (* db.Exec(INSERT), other than a constraint *)
  last_id_fails : bool;   (* result.LastInsertId() *)
  select_fails : bool;    (* db.QueryRow / db.Query, other than no rows *)
  update_fails : bool;    (* db.Exec(UPDATE) *)
  get_fails : bool;       (* rdb.Get, other than redis.Nil *)
  set_fails : bool        (* rdb.Set *)
}.

Definition set_db (d : list Row) (q : Z) (st : State) : State :=
  mkState d q (rdb st) (qrcodes st) (seededRand st) (logged st).
Definition set_rdb (c : gmap string string) (st : State) : State :=
  mkState (db st) (db_seq st) c (qrcodes st) (seededRand st) (logged st).
Definition set_qrcodes (f : gmap string string) (st : State) : State :=
  mkState (db st) (db_seq st) (rdb st) f (seededRand st) (logged st).
Definition set_seededRand (r : Rand) (st : State) : State :=
  mkState (db st) (db_seq st) (rdb st) (qrcodes st) r (logged st).
Definition Println (l : LogEntry) (st : State) : State :=
  mkState (db st) (db_seq st) (rdb st) (qrcodes st) (seededRand st)
          (logged st ++ [l])%list.

Definition set_access_count (c : Z) (r : Row) : Row :=
  mkRow (id r) (original r) (short r) (qr_code r) (custom_short r)
        (expiration_date r) c.

Definition with_update_fails (b : bool) (e : Env) : Env :=
  mkEnv (now e) (qr_fails e) (insert_fails e) (last_id_fails e)
        (select_fails e) b (get_fails e) (set_fails e).
Definition with_set_fails (b : bool) (e : Env) : Env :=
  mkEnv (now e) (qr_fails e) (insert_fails e) (last_id_fails e)
        (select_fails e) (update_fails e) (get_fails e) b.

(** *** The table [urls] *)

(** [WHERE short = ? OR custom_short = ?], both parameters being [tok];
    a NULL [custom_short] equals nothing. *)
Definition matches (tok : string) (r : Row) : bool :=
  String.eqb (short r) tok
  || match custom_short r with
     | Some c => String.eqb c tok
     | None => false
     end.

(** [db.QueryRow("SELECT ... WHERE short = ? OR custom_short = ?")]: the
    first matching row, [sql.ErrNoRows] when there is none. *)
Definition QueryRow (e : Env) (tok : string) (d : list Row) : error + Row :=
  if select_fails e then inl ErrStore
  else match find (matches tok) d with
       | Some r => inr r
       | None => inl ErrNoRows
       end.

(** [UPDATE urls SET access_count = ? WHERE short = ? OR custom_short = ?] *)
Definition update_access_count (c : Z) (tok : string) (d : list Row) : list Row :=
  map (fun r => if matches tok r then set_access_count c r else r) d.

Definition Exec_update (e : Env) (c : Z) (tok : string) (d : list Row)
  : error + list Row :=
  if update_fails e then inl ErrStore else inr (update_access_count c tok d).

(** The rowid an AUTOINCREMENT column gives next: one more than the largest
    ever used. *)
Definition next_id (d : list Row) (q : Z) : Z :=
  Z.max q (fold_right Z.max 0 (map id d)) + 1.

(** [INSERT INTO urls (original, short, qr_code, custom_short,
    expiration_date) VALUES (?, ?, ?, ?, ?)].  The five values are Go values
    (four strings and a [time.Time]), none of them nil: no column of the new
    row is NULL.  The two UNIQUE columns are checked; a NULL never collides. *)
Definition short_taken (s : string) (d : list Row) : bool :=
  existsb (fun r => String.eqb (short r) s) d.

Definition custom_taken (c : string) (d : list Row) : bool :=
  existsb (fun r => match custom_short r with
                    | Some c' => String.eqb c' c
                    | None => false
                    end) d.

Definition Exec_insert (e : Env) (u : URL) (d : list Row) (q : Z)
  : error + (list Row * Z) :=
  if insert_fails e then inl ErrStore
  else if short_taken (Short u) d then inl (ErrUnique "urls.short")
  else if custom_taken (CustomShort u) d then inl (ErrUnique "urls.custom_short")
  else
    let i := next_id d q in
    inr ((d ++ [mkRow i (Original u) (Short u) (QRCode u)
                      (Some (CustomShort u)) (Some (ExpirationDate u)) 0])%list, i).

(** *** The cache *)

Inductive GetResult : Type :=
| Hit (v : string)
| Nil                     (* redis.Nil: no such key *)
| GetErr.

Definition rdb_Get (e : Env) (k : string) (c : gmap string string) : GetResult :=
  if get_fails e then GetErr
  else match c !! k with
       | Some v => Hit v
       | None => Nil
       end.

(** [rdb.Set(ctx, k, v, 0)]: no expiration on the entry.  A failure is
    logged by both callers with the same line and nothing else happens. *)
Definition rdb_Set (e : Env) (k v : string) (st : State) : State :=
  if set_fails e then Println (LogErr "Error caching URL: " ErrCache) st
  else set_rdb (<[k := v]> (rdb st)) st.

(** Redis is volatile: an entry can be gone (eviction, restart) without the
    program having done anything. *)
Definition evict (k : string) (st : State) : State :=
  set_rdb (delete k (rdb st)) st.

(** *** The handlers *)

Definition set_Short (x : string) (u : URL) : URL :=
  mkURL (ID u) (Original u) x (QRCode u) (CustomShort u) (ExpirationDate u)
        (AccessCount u).
Definition set_QRCode (x : string) (u : URL) : URL :=
  mkURL (ID u) (Original u) (Short u) x (CustomShort u) (ExpirationDate u)
        (AccessCount u).
Definition set_ID (x : Z) (u : URL) : URL :=
  mkURL x (Original u) (Short u) (QRCode u) (CustomShort u) (ExpirationDate u)
        (AccessCount u).

Definition internal_error : Response :=
  JSON StatusInternalServerError (BMsg "Internal server error").
Definition not_found : Response :=
  JSON StatusNotFound (BMsg "URL not found").
Definition expired : Response :=
  JSON StatusGone (BMsg "URL has expired").

(** [expirationDate.Valid && expirationDate.Time.Before(time.Now())] on a
    value scanned into a [sql.NullTime]: [Valid] says the column is not NULL. *)
Definition has_expired (e : Env) (r : Row) : bool :=
  match expiration_date r with
  | Some t => Before t (now e)
  | None => false
  end.

(** [accessCount++] followed by the UPDATE, whose error is only logged
    (lines 187-191 and 211-215). *)
Definition bump (e : Env) (tok : string) (r : Row) (st : State) : State :=
  let accessCount := wrap_int (access_count r + 1) in
  match Exec_update e accessCount tok (db st) with
  | inl err => Println (LogErr "Error updating access count: " err) st
  | inr d => set_db d (db_seq st) st
  end.

(** The branch [err == redis.Nil] of [redirectURL] (lines 164-197). *)
Definition resolve_miss (e : Env) (tok : string) (st : State) : State * Response :=
  match QueryRow e tok (db st) with
  | inl ErrNoRows =>
      (Println (LogStr "No rows found for short link: " tok) st, not_found)
  | inl err =>
      (Println (LogErr "Error querying database: " err) st, internal_error)
  | inr r =>
      if has_expired e r
      then (Println (LogStr "Link has expired: " tok) st, expired)
      else
        let st1 := bump e tok r st in
        let st2 := rdb_Set e tok (original r) st1 in
        (st2, Redirect StatusMovedPermanently (original r))
  end.

(** The last branch of [redirectURL]: the cache had the key (lines 203-215).
    Only [access_count] is selected; any error of the query, [sql.ErrNoRows]
    included, ends the request. *)
Definition resolve_hit (e : Env) (tok original : string) (st : State)
  : State * Response :=
  match QueryRow e tok (db st) with
  | inl err =>
      (Println (LogErr "Error querying database: " err) st, internal_error)
  | inr r =>
      (bump e tok r st, Redirect StatusMovedPermanently original)
  end.

(** [func redirectURL(c *gin.Context)] (lines 158-219), [tok] being
    [c.Param("short")]. *)
Definition redirectURL (e : Env) (tok : string) (st : State) : State * Response :=
  match rdb_Get e tok (rdb st) with
  | Nil => resolve_miss e tok st
  | GetErr =>
      (Println (LogErr "Error querying cache: " ErrCache) st, internal_error)
  | Hit original => resolve_hit e tok original st
  end.

(** [rows.Scan] of one row in [getURLs]: [custom_short] goes into a plain
    string, which a NULL cannot; [expiration_date] goes through a
    [sql.NullTime]. *)
Definition scan_url (r : Row) : error + URL :=
  match custom_short r with
  | None => inl ErrScanNull
  | Some c =>
      inr (mkURL (id r) (original r) (short r) (qr_code r) c
                 (match expiration_date r with
                  | Some t => t
                  | None => zeroTime
                  end)
                 (access_count r))
  end.

Fixpoint scan_rows (d : list Row) : error + list URL :=
  match d with
  | [] => inr []
  | r :: d' =>
      match scan_url r with
      | inl err => inl err
      | inr u =>
          match scan_rows d' with
          | inl err => inl err
          | inr us => inr (u :: us)
          end
      end
  end.

(** [func getURLs(c *gin.Context)] (lines 221-252); a failure met while
    iterating ([rows.Err()]) is taken together with a failure of the query. *)
Definition getURLs (e : Env) (st : State) : State * Response :=
  if select_fails e
  then (Println (LogErr "Error querying database: " ErrStore) st, internal_error)
  else match scan_rows (db st) with
       | inl err => (Println (LogErr "Error scanning row: " err) st, internal_error)
       | inr urls => (st, JSON StatusOK (BURLs urls))
       end.

Section Validated.

(** The rule [url] of go-playground/validator, a library: what it accepts is
    a parameter of the model. *)
Variable isURL : string -> bool.

(** [validate.Struct(requestURL)] with the tag [validate:"required,url"] on
    [Original]: not empty, and a URL.  [true] is a nil error. *)
Definition validate_Struct (u : URL) : bool :=
  negb (String.eqb (Original u) "") && isURL (Original u).

(** [func shortenURL(c *gin.Context)] (lines 103-156).  [body] is what
    [c.BindJSON] made of the request body, [None] when it failed. *)
Definition shortenURL (e : Env) (body : option URL) (st : State)
  : State * Response :=
  match body with
  | None =>
      (Println (LogErr "Error binding JSON: " ErrBind) st,
       JSON StatusBadRequest (BErr ErrBind))
  | Some requestURL =>
      if negb (validate_Struct requestURL)
      then (Println (LogErr "Validation error: " ErrValidation) st,
            JSON StatusBadRequest (BErr ErrValidation))
      else
        match (if negb (String.eqb (CustomShort requestURL) "")
               then Some (CustomShort requestURL, seededRand st)
               else generateShortLink (seededRand st)) with
        | None => (st, Abort StatusInternalServerError)
        | Some (sh, rnd) =>
            let st1 := set_seededRand rnd st in
            let u1 := set_Short sh requestURL in
            let qrCodeFile := "qrcodes/" +:+ Short u1 +:+ ".png" in
            if qr_fails e
            then (Println (LogErr "Error generating QR code: " ErrQRCode) st1,
                  JSON StatusInternalServerError (BErr ErrQRCode))
            else
              let st2 := set_qrcodes (<[qrCodeFile := Short u1]> (qrcodes st1)) st1 in
              let u2 := set_QRCode qrCodeFile u1 in
              match Exec_insert e u2 (db st2) (db_seq st2) with
              | inl err =>
                  (Println (LogErr "Error inserting into database: " err) st2,
                   JSON StatusInternalServerError (BErr err))
              | inr (d, i) =>
                  let st3 := set_db d i st2 in
                  if last_id_fails e
                  then (Println (LogErr "Error getting last insert ID: " ErrStore) st3,
                        JSON StatusInternalServerError (BErr ErrStore))
                  else
                    let u3 := set_ID i u2 in
                    let st4 := rdb_Set e (Short u3) (Original u3) st3 in
                    (st4, JSON StatusOK (BURL u3))
              end
        end
  end.

(** *** The server: requests one after the other *)

Inductive Request : Type :=
| POST_shorten (body : option URL)
| GET_short (tok : string)
| GET_urls.

Definition handle (e : Env) (rq : Request) (st : State) : State * Response :=
  match rq with
  | POST_shorten body => shortenURL e body st
  | GET_short tok => redirectURL e tok st
  | GET_urls => getURLs e st
  end.

(** What happens to the state over time: a request is served, or the cache
    loses a key. *)
Inductive Event : Type :=
| Call (e : Env) (rq : Request)
| Evict (k : string).

Fixpoint run (evs : list Event) (st : State) : State * list Response :=
  match evs with
  | [] => (st, [])
  | Call e rq :: evs' =>
      let '(st1, r) := handle e rq st in
      let '(st2, rs) := run evs' st1 in
      (st2, r :: rs)
  | Evict k :: evs' => run evs' (evict k st)
  end.

End Validated.

(** Resolutions of one token one after the other; before each of them the
    cache may ([true]) or may not have lost the token. *)
Definition resolutions (tok : string) (steps : list (bool * Env)) : list Event :=
  flat_map (fun s : bool * Env =>
              if fst s then [Evict tok; Call (snd s) (GET_short tok)]
              else [Call (snd s) (GET_short tok)]) steps.

Definition is_redirect (r : Response) : bool :=
  match r with
  | Redirect code _ => code =? StatusMovedPermanently
  | _ => false
  end.

Definition is_ok (r : Response) : bool :=
  match r with
  | JSON code (BURL _) => code =? StatusOK
  | _ => false
  end.

(** The state after [main] has opened the database and created the table. *)
Definition init (r : Rand) : State := mkState [] 0 ∅ ∅ r [].

(** *** What every table written by the handlers satisfies *)

Definition row_ok (r : Row) : Prop :=
  short r <> ""
  /\ (custom_short r = None \/ custom_short r = Some "" \/
      custom_short r = Some (short r))
  /\ minInt <= access_count r <= maxInt.

Definition db_ok (d : list Row) : Prop :=
  NoDup (map short d)
  /\ NoDup (omap custom_short d)
  /\ Forall row_ok d.

End Shorrt.

(** ** Sample inputs, to run the handlers on *)

Module Samples.
Import Token Shorrt.

(** A stand-in for the validator's [url] rule: an http or https scheme. *)
Definition sample_isURL (s : string) : bool :=
  String.prefix "http://" s || String.prefix "https://" s.

(** A random source whose raw values are 0, 1, 2, ...: the first token it
    gives is "abcdef". *)
Definition rnd0 : Rand := mkRand (fun n => Z.of_nat n) 0.

(** Every collaborator works; the clock shows [t]. *)
Definition healthy (t : Z) : Env :=
  mkEnv t false false false false false false false.

Definition cache_write_down (t : Z) : Env := with_set_fails true (healthy t).
Definition counter_write_down (t : Z) : Env := with_update_fails true (healthy t).
Definition cache_read_down (t : Z) : Env :=
  mkEnv t false false false false false true false.
Definition store_read_down (t : Z) : Env :=
  mkEnv t false false false true false false false.

(** {"original": "https://example.com"} *)
Definition req_plain : URL :=
  mkURL 0 "https://example.com" "" "" "" zeroTime 0.

(** {"original": "https://example.org"} *)
Definition req_plain2 : URL :=
  mkURL 0 "https://example.org" "" "" "" zeroTime 0.

(** {"original": "https://example.com", "custom_short": "ex1"} with an
    expiration date at second [t]. *)
Definition req_ex1 (t : Z) : URL :=
  mkURL 0 "https://example.com" "" "" "ex1" t 0.

(** {"original": "not-a-url"} *)
Definition req_bad : URL := mkURL 0 "not-a-url" "" "" "" zeroTime 0.

(** Some moments, in seconds since the epoch. *)
Definition t2023 : Z := 1700000000.
Definition t2024 : Z := 1710000000.
Definition t2025 : Z := 1740000000.

(** The server after ex1 has been created in 2023 to expire in 2024. *)
Definition st_ex1 : State :=
  fst (shortenURL sample_isURL (healthy t2023) (Some (req_ex1 t2024)) (init rnd0)).

(** The server after ex1 has been created in 2023 to expire in 2025. *)
Definition st_ex1_live : State :=
  fst (shortenURL sample_isURL (healthy t2023) (Some (req_ex1 t2025)) (init rnd0)).

(** The row of ex1 in [st_ex1_live]. *)
Definition row_ex1 : Row :=
  mkRow 1 "https://example.com" "ex1" "qrcodes/ex1.png" (Some "ex1")
        (Some t2025) 0.

(** The same server with the counter of ex1 at the largest [int]. *)
Definition st_ex1_full : State :=
  set_db [set_access_count maxInt row_ex1] (db_seq st_ex1_live) st_ex1_live.

End Samples.

(** ** What holds of every state the server reaches *)

Module Invariants.
Import Token Shorrt.

(** The name [shortenURL] gives the image of a token. *)
Definition qr_path (sh : string) : string := "qrcodes/" +:+ sh +:+ ".png".

(** Every entry of the cache belongs to a row of the table: the key answers
    to the row and the value is the row's original URL. *)
Definition cache_ok (st : State) : Prop :=
  forall k v, rdb st !! k = Some v ->
  exists r, In r (db st) /\ matches k r = true /\ original r = v.

(** No row has a NULL [custom_short] (the column [getURLs] scans into a
    plain string). *)
Definition rows_scannable (d : list Row) : Prop :=
  Forall (fun r => custom_short r <> None) d.

(** Every row names the image of its token, and the image is on disk. *)
Definition images_ok (st : State) : Prop :=
  Forall (fun r => qr_code r = qr_path (short r)
                   /\ qrcodes st !! qr_code r = Some (short r)) (db st).

Definition inv (st : State) : Prop :=
  db_ok (db st) /\ cache_ok st /\ rows_scannable (db st) /\ images_ok st.

(** A row without its counter: what of a link never changes. *)
Definition link_of (r : Row) : Row := set_access_count 0 r.

(** The record [getURLs] makes of a row whose [custom_short] is [c]. *)
Definition record_of (r : Row) (c : string) : URL :=
  mkURL (id r) (original r) (short r) (qr_code r) c
        (match expiration_date r with Some t => t | None => zeroTime end)
        (access_count r).

End Invariants.

(** ** More sample inputs *)

Module MoreSamples.
Import Token Shorrt Samples.

(** The requests that lead from the empty table to [st_ex1_live]. *)
Definition evs_ex1 : list Event :=
  [Call (healthy t2023) (POST_shorten (Some (req_ex1 t2025)))].

(** The record the create of ex1 returns. *)
Definition url_ex1 : URL :=
  mkURL 1 "https://example.com" "ex1" "qrcodes/ex1.png" "ex1" t2025 0.


End MoreSamples.

(** ** Theorems on the token generator *)

Module TokenFacts.
Import Token.

Lemma get_in_range (s : string) (n : nat) :
  (n < String.length s)%nat ->
  exists c, String.get n s = Some c /\ In c (list_ascii_of_string s).
Proof.
  revert n. induction s as [|a s IH]; intros n Hn; simpl in *; [lia|].
  destruct n as [|n].
  - exists a. split; [reflexivity | now left].
  - destruct (IH n) as (c & Hc & Hin); [lia|].
    exists c. split; [exact Hc | now right].
Qed.

Lemma Intn_range (r : Rand) (n : Z) :
  0 < n -> exists k r', Intn r n = Some (k, r') /\ 0 <= k < n.
Proof.
  intros Hn. unfold Intn.
  destruct (Z.leb_spec n 0) as [Hle|_]; [lia|].
  eexists _, _. split; [reflexivity|]. apply Z.mod_pos_bound. exact Hn.
Qed.

Lemma fill_total (n : nat) (cs : string) (r : Rand) :
  (0 < String.length cs)%nat ->
  exists b r', fill n cs r = Some (b, r')
    /\ length b = n
    /\ Forall (fun c => In c (list_ascii_of_string cs)) b.
Proof.
  intros Hcs. revert r. induction n as [|n IH]; intros r; simpl.
  - exists [], r. repeat split. constructor.
  - destruct (Intn_range r (Z.of_nat (String.length cs))) as (k & r1 & Hk & Hr);
      [lia|].
    rewrite Hk. simpl.
    destruct (get_in_range cs (Z.to_nat k)) as (c & Hc & Hin); [lia|].
    rewrite Hc. simpl.
    destruct (IH r1) as (b & r2 & Hb & Hlen & Hall).
    rewrite Hb. simpl.
    exists (c :: b), r2. repeat split.
    + simpl. now rewrite Hlen.
    + constructor; assumption.
Qed.

Lemma length_string_of_list_ascii (b : list ascii) :
  String.length (string_of_list_ascii b) = length b.
Proof. induction b as [|a b IH]; simpl; [reflexivity | now rewrite IH]. Qed.

Lemma charset_length : String.length charset = 62%nat.
Proof. reflexivity. Qed.

Lemma charset_alnum :
  Forall (fun c => is_alnum c = true) (list_ascii_of_string charset).
Proof. repeat constructor. Qed.

Lemma charset_NoDup : NoDup (list_ascii_of_string charset).
Proof.
  apply (bool_decide_unpack _). vm_compute. exact I.
Qed.

(** The alphanumeric alphabet has 62 symbols, so [charset] is all of it. *)
Lemma alnum_count : length (filter (fun c => is_alnum c = true) all_bytes) = 62%nat.
Proof. vm_compute. reflexivity. Qed.

Lemma alnum_iff_charset (c : ascii) :
  is_alnum c = true <-> In c (list_ascii_of_string charset).
Proof.
  split.
  - destruct c as [[] [] [] [] [] [] [] []]; vm_compute; intros H;
      try discriminate H; tauto.
  - exact (proj1 (List.Forall_forall _ _) charset_alnum c).
Qed.

Lemma generateShortLink_total (r : Rand) :
  exists s r',
    generateShortLink r = Some (s, r')
    /\ String.length s = 6%nat
    /\ Forall (fun c => In c (list_ascii_of_string charset) /\ is_alnum c = true)
         (list_ascii_of_string s)
    /\ String.length charset = 62%nat.
Proof.
  destruct (fill_total shortLinkLength charset r) as (b & r' & Hb & Hlen & Hall).
  { rewrite charset_length. lia. }
  exists (string_of_list_ascii b), r'.
  unfold generateShortLink, stringWithCharset. rewrite Hb. simpl.
  split; [reflexivity|]. split.
  { rewrite length_string_of_list_ascii. exact Hlen. }
  split; [|exact charset_length].
  rewrite list_ascii_of_string_of_list_ascii.
  eapply Forall_impl; [exact Hall|].
  intros c Hc. split; [exact Hc|].
  exact (proj1 (List.Forall_forall _ _) charset_alnum c Hc).
Qed.

(** C10: every call of the token generator returns (it does not panic) a
    string of exactly 6 characters, each one a symbol of [charset], hence
    alphanumeric; [charset] has 62 symbols, all different, which are the
    alphanumeric ones a-z, A-Z, 0-9. *)
Theorem generateShortLink_shape (r : Rand) :
  (exists s r',
    generateShortLink r = Some (s, r')
    /\ String.length s = 6%nat
    /\ Forall (fun c => In c (list_ascii_of_string charset) /\ is_alnum c = true)
         (list_ascii_of_string s)
    /\ String.length charset = 62%nat)
  /\ NoDup (list_ascii_of_string charset)
  /\ (forall c, is_alnum c = true <-> In c (list_ascii_of_string charset)).
Proof.
  split; [exact (generateShortLink_total r)|].
  split; [exact charset_NoDup | exact alnum_iff_charset].
Qed.

End TokenFacts.

(** ** Theorems on the handlers *)

Module ShorrtFacts.
Import Token Shorrt.

(** *** Reading the collaborators *)

Lemma rdb_Get_fails (e : Env) (k : string) (c : gmap string string) :
  get_fails e = true -> rdb_Get e k c = GetErr.
Proof. intros H. unfold rdb_Get. now rewrite H. Qed.

Lemma rdb_Get_miss (e : Env) (k : string) (c : gmap string string) :
  get_fails e = false -> c !! k = None -> rdb_Get e k c = Nil.
Proof. intros H1 H2. unfold rdb_Get. now rewrite H1, H2. Qed.

Lemma rdb_Get_hit (e : Env) (k v : string) (c : gmap string string) :
  get_fails e = false -> c !! k = Some v -> rdb_Get e k c = Hit v.
Proof. intros H1 H2. unfold rdb_Get. now rewrite H1, H2. Qed.

Lemma QueryRow_found (e : Env) (tok : string) (d : list Row) (r : Row) :
  select_fails e = false -> find (matches tok) d = Some r ->
  QueryRow e tok d = inr r.
Proof. intros H1 H2. unfold QueryRow. now rewrite H1, H2. Qed.

Lemma QueryRow_inv (e : Env) (tok : string) (d : list Row) (r : Row) :
  QueryRow e tok d = inr r ->
  select_fails e = false /\ find (matches tok) d = Some r.
Proof.
  unfold QueryRow. destruct (select_fails e); [discriminate|].
  destruct (find (matches tok) d); [|discriminate].
  intros [= ->]. now split.
Qed.

(** Neither a log line nor a cache write touches the table. *)
Lemma db_Println (l : LogEntry) (st : State) : db (Println l st) = db st.
Proof. reflexivity. Qed.

Lemma db_rdb_Set (e : Env) (k v : string) (st : State) :
  db (rdb_Set e k v st) = db st.
Proof. unfold rdb_Set. now destruct (set_fails e). Qed.

Lemma db_evict (k : string) (st : State) : db (evict k st) = db st.
Proof. reflexivity. Qed.

Lemma db_bump (e : Env) (tok : string) (r : Row) (st : State) :
  db (bump e tok r st) =
  if update_fails e then db st
  else update_access_count (wrap_int (access_count r + 1)) tok (db st).
Proof. unfold bump, Exec_update. now destruct (update_fails e). Qed.

Lemma rdb_bump (e : Env) (tok : string) (r : Row) (st : State) :
  rdb (bump e tok r st) = rdb st.
Proof. unfold bump, Exec_update. now destruct (update_fails e). Qed.

(** *** The expiry check of the store path *)

(** C7: when the cache has no entry for the token and the store finds a link
    whose expiration date is present and in the past, [redirectURL] answers
    410 "URL has expired" and only logs: the table (hence every access
    count), the cache and the image files are what they were. *)
Theorem expired_in_store_leaves_state
  (e : Env) (tok : string) (st : State) (r : Row) (t : Z) :
  rdb_Get e tok (rdb st) = Nil ->
  QueryRow e tok (db st) = inr r ->
  expiration_date r = Some t ->
  Before t (now e) = true ->
  let st' := fst (redirectURL e tok st) in
  snd (redirectURL e tok st) = expired
  /\ db st' = db st
  /\ db_seq st' = db_seq st
  /\ rdb st' = rdb st
  /\ qrcodes st' = qrcodes st
  /\ logged st' = (logged st ++ [LogStr "Link has expired: " tok])%list.
Proof.
  intros Hget Hq Hexp Hpast. unfold redirectURL, resolve_miss.
  rewrite Hget, Hq. unfold has_expired. rewrite Hexp, Hpast.
  simpl. repeat split.
Qed.

(** *** Errors of the cache and of the store during a resolution *)

(** C5, as the code has it: an error of the cache lookup other than a miss is
    logged and ends the request with 500 "Internal server error"; the store
    is not consulted and neither the table nor the cache changes. *)
Theorem cache_lookup_error_is_fatal (e : Env) (tok : string) (st : State) :
  get_fails e = true ->
  redirectURL e tok st =
    (Println (LogErr "Error querying cache: " ErrCache) st, internal_error)
  /\ db (fst (redirectURL e tok st)) = db st
  /\ rdb (fst (redirectURL e tok st)) = rdb st.
Proof.
  intros Hget. unfold redirectURL. rewrite (rdb_Get_fails _ _ _ Hget).
  repeat split.
Qed.

Lemma redirectURL_response_update (b : bool) (e : Env) (tok : string) (st : State) :
  snd (redirectURL (with_update_fails b e) tok st) = snd (redirectURL e tok st).
Proof.
  unfold redirectURL, resolve_miss, resolve_hit, QueryRow, rdb_Get, has_expired.
  simpl. destruct (get_fails e); [reflexivity|].
  destruct (rdb st !! tok); destruct (select_fails e); try reflexivity;
    destruct (find (matches tok) (db st)) as [r|]; try reflexivity.
  destruct (expiration_date r) as [t|]; [destruct (Before t (now e))|];
    reflexivity.
Qed.

(** C6, as the code has it: a store error on the counter write (the UPDATE)
    is logged and changes nothing else, the answer is the one the request
    would have had with a working UPDATE (a redirect stays a redirect to the
    same URL) and the table is left as it was; but on a cache hit a store
    error on the read of the counter that precedes the write ends the request
    with 500. *)
Theorem counter_write_error_not_fatal (e : Env) (tok : string) (st : State) :
  update_fails e = true ->
  snd (redirectURL e tok st) = snd (redirectURL (with_update_fails false e) tok st)
  /\ db (fst (redirectURL e tok st)) = db st
  /\ (is_redirect (snd (redirectURL e tok st)) = true ->
      In (LogErr "Error updating access count: " ErrStore)
         (logged (fst (redirectURL e tok st))))
  /\ (forall url, rdb_Get e tok (rdb st) = Hit url -> select_fails e = true ->
      snd (redirectURL e tok st) = internal_error).
Proof.
  intros Hupd. split; [now rewrite redirectURL_response_update|].
  unfold redirectURL, resolve_miss, resolve_hit.
  destruct (rdb_Get e tok (rdb st)) as [url| |] eqn:Hget.
  - destruct (QueryRow e tok (db st)) as [err|r] eqn:Hq; simpl.
    + split; [reflexivity|]. split; [discriminate|].
      intros url' _ Hsel. reflexivity.
    + split; [rewrite db_bump, Hupd; reflexivity|]. split.
      * intros _. unfold bump, Exec_update. rewrite Hupd. simpl.
        apply in_or_app. right. now left.
      * intros url' _ Hsel. apply QueryRow_inv in Hq. destruct Hq as [Hq _].
        congruence.
  - destruct (QueryRow e tok (db st)) as [err|r] eqn:Hq; simpl.
    + destruct err; simpl; (split; [reflexivity|]); split; discriminate.
    + destruct (has_expired e r); simpl.
      * split; [reflexivity|]. split; discriminate.
      * rewrite db_rdb_Set, db_bump, Hupd. split; [reflexivity|].
        split; [|discriminate].
        intros _. unfold rdb_Set, bump, Exec_update. rewrite Hupd.
        destruct (set_fails e); simpl; apply in_or_app.
        -- left. apply in_or_app. right. now left.
        -- right. now left.
  - simpl. split; [reflexivity|]. split; discriminate.
Qed.

(** *** Validation *)

Section Validation.
Variable isURL : string -> bool.

(** C9: a create request whose [original] is not a syntactically valid URL
    is answered 400 with the validation error, and nothing but the log
    changes: no row is added to the table, nothing is cached, no image is
    written and no random value is drawn. *)
Theorem invalid_original_rejected (e : Env) (req : URL) (st : State) :
  isURL (Original req) = false ->
  let st' := fst (shortenURL isURL e (Some req) st) in
  snd (shortenURL isURL e (Some req) st) = JSON StatusBadRequest (BErr ErrValidation)
  /\ db st' = db st
  /\ db_seq st' = db_seq st
  /\ rdb st' = rdb st
  /\ qrcodes st' = qrcodes st
  /\ seededRand st' = seededRand st.
Proof.
  intros Hurl. unfold shortenURL, validate_Struct. rewrite Hurl.
  rewrite andb_false_r. simpl. repeat split.
Qed.

End Validation.

(** *** How the handlers change the table *)

Lemma wrap_int_range (z : Z) : minInt <= wrap_int z <= maxInt.
Proof.
  unfold wrap_int, minInt, maxInt.
  pose proof (Z.mod_pos_bound (z + 2 ^ 63) (2 ^ 64) ltac:(lia)). lia.
Qed.

Lemma wrap_int_id (z : Z) : minInt <= z <= maxInt -> wrap_int z = z.
Proof.
  unfold wrap_int, minInt, maxInt. intros H.
  rewrite Z.mod_small; lia.
Qed.

Lemma Exec_insert_inv (e : Env) (u : URL) (d d' : list Row) (q i : Z) :
  Exec_insert e u d q = inr (d', i) ->
  insert_fails e = false
  /\ short_taken (Short u) d = false
  /\ custom_taken (CustomShort u) d = false
  /\ i = next_id d q
  /\ d' = (d ++ [mkRow i (Original u) (Short u) (QRCode u)
                       (Some (CustomShort u)) (Some (ExpirationDate u)) 0])%list.
Proof.
  unfold Exec_insert. destruct (insert_fails e); [discriminate|].
  destruct (short_taken _ d); [discriminate|].
  destruct (custom_taken _ d); [discriminate|].
  intros [= <- <-]. repeat split.
Qed.

Lemma redirectURL_db (e : Env) (tok : string) (st : State) :
  db (fst (redirectURL e tok st)) = db st
  \/ exists c, minInt <= c <= maxInt
       /\ db (fst (redirectURL e tok st)) = update_access_count c tok (db st).
Proof.
  unfold redirectURL, resolve_miss, resolve_hit.
  destruct (rdb_Get e tok (rdb st)); [| |now left].
  - destruct (QueryRow e tok (db st)) as [err|r]; [now left|]. simpl.
    rewrite db_bump. destruct (update_fails e); [now left|].
    right. eexists. split; [apply wrap_int_range | reflexivity].
  - destruct (QueryRow e tok (db st)) as [err|r]; [destruct err; now left|].
    destruct (has_expired e r); [now left|]. simpl.
    rewrite db_rdb_Set, db_bump. destruct (update_fails e); [now left|].
    right. eexists. split; [apply wrap_int_range | reflexivity].
Qed.

Lemma getURLs_db (e : Env) (st : State) : db (fst (getURLs e st)) = db st.
Proof.
  unfold getURLs. destruct (select_fails e); [reflexivity|].
  now destruct (scan_rows (db st)).
Qed.

Lemma generated_not_empty (r r' : Rand) (s : string) :
  generateShortLink r = Some (s, r') -> s <> "".
Proof.
  intros H. destruct (TokenFacts.generateShortLink_total r)
    as (s0 & r0 & H0 & Hlen & _).
  rewrite H in H0. injection H0 as -> ->. intros ->. discriminate.
Qed.

Section Creation.
Variable isURL : string -> bool.

(** A create request either leaves the table alone and fails, or inserts one
    row made from the request. *)
Lemma shortenURL_cases (e : Env) (body : option URL) (st : State) :
  (db (fst (shortenURL isURL e body st)) = db st
   /\ is_ok (snd (shortenURL isURL e body st)) = false)
  \/ exists req u i,
       body = Some req
       /\ validate_Struct isURL req = true
       /\ Original u = Original req
       /\ CustomShort u = CustomShort req
       /\ ExpirationDate u = ExpirationDate req
       /\ Short u <> ""
       /\ (CustomShort u = "" \/ CustomShort u = Short u)
       /\ qr_fails e = false
       /\ Exec_insert e u (db st) (db_seq st)
          = inr (db (fst (shortenURL isURL e body st)), i)
       /\ (is_ok (snd (shortenURL isURL e body st)) = true ->
           last_id_fails e = false
           /\ snd (shortenURL isURL e body st) = JSON StatusOK (BURL (set_ID i u))
           /\ rdb (fst (shortenURL isURL e body st))
              = if set_fails e then rdb st
                else <[Short u := Original u]> (rdb st)).
Proof.
  unfold shortenURL. destruct body as [req|]; [|left; now split].
  destruct (validate_Struct isURL req) eqn:Hval; simpl; [|left; now split].
  destruct (String.eqb_spec (CustomShort req) "") as [Hc|Hc]; simpl.
  - destruct (generateShortLink (seededRand st)) as [[sh rnd]|] eqn:Hgen;
      [|left; now split].
    destruct (qr_fails e) eqn:Hqr; [left; now split|].
    match goal with |- context [Exec_insert e ?u ?d ?q] =>
      destruct (Exec_insert e u d q) as [err|[d' i]] eqn:Hins end;
      [left; now split|].
    right.
    exists req, (set_QRCode ("qrcodes/" +:+ sh +:+ ".png") (set_Short sh req)), i.
    split; [reflexivity|]. split; [exact Hval|].
    do 3 (split; [reflexivity|]).
    split; [simpl; eapply generated_not_empty; exact Hgen|].
    split; [left; exact Hc|]. split; [reflexivity|].
    split.
    { simpl in Hins. rewrite Hins.
      destruct (last_id_fails e); simpl; [reflexivity|]. now rewrite db_rdb_Set. }
    destruct (last_id_fails e); simpl; [discriminate|]. intros _.
    split; [reflexivity|]. split; [reflexivity|].
    unfold rdb_Set. now destruct (set_fails e).
  - destruct (qr_fails e) eqn:Hqr; [left; now split|].
    match goal with |- context [Exec_insert e ?u ?d ?q] =>
      destruct (Exec_insert e u d q) as [err|[d' i]] eqn:Hins end;
      [left; now split|].
    right.
    exists req, (set_QRCode ("qrcodes/" +:+ CustomShort req +:+ ".png")
                   (set_Short (CustomShort req) req)), i.
    split; [reflexivity|]. split; [exact Hval|].
    do 3 (split; [reflexivity|]).
    split; [exact Hc|]. split; [right; reflexivity|]. split; [reflexivity|].
    split.
    { simpl in Hins. rewrite Hins.
      destruct (last_id_fails e); simpl; [reflexivity|]. now rewrite db_rdb_Set. }
    destruct (last_id_fails e); simpl; [discriminate|]. intros _.
    split; [reflexivity|]. split; [reflexivity|].
    unfold rdb_Set. now destruct (set_fails e).
Qed.

End Creation.

(** *** Creating twice without a custom token *)

Lemma custom_taken_app (c : string) (d1 d2 : list Row) :
  custom_taken c (d1 ++ d2) = custom_taken c d1 || custom_taken c d2.
Proof. unfold custom_taken. apply existsb_app. Qed.

Lemma custom_taken_update (c : string) (n : Z) (tok : string) (d : list Row) :
  custom_taken c (update_access_count n tok d) = custom_taken c d.
Proof.
  unfold custom_taken, update_access_count.
  induction d as [|r d IH]; simpl; [reflexivity|].
  rewrite IH. now destruct (matches tok r).
Qed.

Lemma insert_refused_when_taken (e : Env) (u : URL) (d : list Row) (q : Z) :
  custom_taken (CustomShort u) d = true ->
  insert_fails e = false ->
  exists col, Exec_insert e u d q = inl (ErrUnique col).
Proof.
  intros Ht Hio. unfold Exec_insert. rewrite Hio, Ht.
  destruct (short_taken (Short u) d); eexists; reflexivity.
Qed.

Lemma insert_never_succeeds_when_taken (e : Env) (u : URL) (d : list Row) (q : Z) :
  custom_taken (CustomShort u) d = true ->
  forall res, Exec_insert e u d q <> inr res.
Proof.
  intros Ht res. unfold Exec_insert. rewrite Ht.
  destruct (insert_fails e); [discriminate|].
  destruct (short_taken (Short u) d); discriminate.
Qed.

Section TwoCreates.
Variable isURL : string -> bool.

Lemma handle_custom_taken (c : string) (e : Env) (rq : Request) (st : State) :
  custom_taken c (db st) = true ->
  custom_taken c (db (fst (handle isURL e rq st))) = true.
Proof.
  intros Ht. destruct rq as [body|tok|]; simpl.
  - destruct (shortenURL_cases isURL e body st) as [[Hdb _]|Hins].
    + now rewrite Hdb.
    + destruct Hins as (req & u & i & _ & _ & _ & _ & _ & _ & _ & _ & Hins & _).
      apply Exec_insert_inv in Hins. destruct Hins as (_ & _ & _ & _ & ->).
      rewrite custom_taken_app, Ht. reflexivity.
  - destruct (redirectURL_db e tok st) as [->|(n & _ & ->)]; [exact Ht|].
    now rewrite custom_taken_update.
  - now rewrite getURLs_db.
Qed.

Lemma run_custom_taken (c : string) (evs : list Event) (st : State) :
  custom_taken c (db st) = true ->
  custom_taken c (db (fst (run isURL evs st))) = true.
Proof.
  revert st. induction evs as [|ev evs IH]; intros st Ht; [exact Ht|].
  destruct ev as [e rq|k]; simpl.
  - pose proof (handle_custom_taken c e rq st Ht) as H1.
    destruct (handle isURL e rq st) as [st1 r]. simpl in H1.
    specialize (IH st1 H1).
    destruct (run isURL evs st1) as [st2 rs]. exact IH.
  - apply IH. exact Ht.
Qed.

Lemma created_without_custom (e : Env) (req : URL) (st : State) :
  CustomShort req = "" ->
  is_ok (snd (shortenURL isURL e (Some req) st)) = true ->
  custom_taken "" (db (fst (shortenURL isURL e (Some req) st))) = true.
Proof.
  intros Hc Hok.
  destruct (shortenURL_cases isURL e (Some req) st) as [[_ Hno]|Hins];
    [congruence|].
  destruct Hins as (req' & u & i & [= <-] & _ & _ & Hcu & _ & _ & _ & _ & Hins & _).
  apply Exec_insert_inv in Hins. destruct Hins as (_ & _ & _ & _ & ->).
  rewrite custom_taken_app. simpl. rewrite Hcu, Hc. simpl.
  apply orb_true_r.
Qed.

(** C2: of two create requests that both leave the custom token empty, the
    later one cannot succeed once the earlier one has, whatever is served in
    between: the earlier insert has put the empty string in the UNIQUE column
    [custom_short], so the later INSERT is refused with a uniqueness
    violation, and the request is answered 500 with that error instead of a
    link record, no row being added. *)
Theorem second_create_without_custom_fails
  (e1 e2 : Env) (req1 req2 : URL) (evs : list Event) (st : State) :
  CustomShort req1 = "" ->
  CustomShort req2 = "" ->
  is_ok (snd (shortenURL isURL e1 (Some req1) st)) = true ->
  let st1 := fst (shortenURL isURL e1 (Some req1) st) in
  let st2 := fst (run isURL evs st1) in
  custom_taken "" (db st2) = true
  /\ is_ok (snd (shortenURL isURL e2 (Some req2) st2)) = false
  /\ db (fst (shortenURL isURL e2 (Some req2) st2)) = db st2
  /\ (validate_Struct isURL req2 = true -> qr_fails e2 = false ->
      insert_fails e2 = false ->
      exists col, snd (shortenURL isURL e2 (Some req2) st2)
                  = JSON StatusInternalServerError (BErr (ErrUnique col))).
Proof.
  intros Hc1 Hc2 Hok st1 st2.
  assert (Ht : custom_taken "" (db st2) = true).
  { apply run_custom_taken. apply created_without_custom; assumption. }
  split; [exact Ht|].
  assert (Hleft : db (fst (shortenURL isURL e2 (Some req2) st2)) = db st2
                  /\ is_ok (snd (shortenURL isURL e2 (Some req2) st2)) = false).
  { destruct (shortenURL_cases isURL e2 (Some req2) st2) as [H|Hins]; [exact H|].
    destruct Hins as (req' & u & i & [= <-] & _ & _ & Hcu & _ & _ & _ & _ & Hins & _).
    exfalso. eapply insert_never_succeeds_when_taken; [|exact Hins].
    now rewrite Hcu, Hc2. }
  destruct Hleft as [Hdb Hno]. split; [exact Hno|]. split; [exact Hdb|].
  intros Hval Hqr Hio. unfold shortenURL. rewrite Hval, Hc2. simpl.
  destruct (TokenFacts.generateShortLink_total (seededRand st2))
    as (sh & rnd & Hgen & _).
  rewrite Hgen, Hqr.
  match goal with |- context [Exec_insert e2 ?u ?d ?q] =>
    destruct (insert_refused_when_taken e2 u d q) as [col Hcol] end;
    [simpl; rewrite Hc2; exact Ht | exact Hio |].
  rewrite Hcol. simpl. exists col. reflexivity.
Qed.

End TwoCreates.

(** *** At most one row answers to a token *)

Lemma NoDup_map_inj {A B : Type} (f : A -> B) (l : list A) (x y : A) :
  NoDup (map f l) -> In x l -> In y l -> f x = f y -> x = y.
Proof.
  induction l as [|a l IH]; simpl; intros Hnd Hx Hy Hf; [contradiction|].
  inversion Hnd as [|? ? Hnotin Hnd']; subst.
  rewrite list_elem_of_In in Hnotin.
  destruct Hx as [->|Hx], Hy as [->|Hy]; [reflexivity| | |now apply IH].
  - exfalso. apply Hnotin. rewrite Hf. now apply in_map.
  - exfalso. apply Hnotin. rewrite <- Hf. now apply in_map.
Qed.

Lemma in_omap {A B : Type} (f : A -> option B) (l : list A) (x : A) (b : B) :
  In x l -> f x = Some b -> In b (omap f l).
Proof.
  intros Hx Hf. apply list_elem_of_In. apply list_elem_of_omap.
  exists x. split; [now apply list_elem_of_In | exact Hf].
Qed.

Lemma NoDup_omap_inj {A B : Type} (f : A -> option B) (l : list A) (x y : A) (b : B) :
  NoDup (omap f l) -> In x l -> In y l -> f x = Some b -> f y = Some b -> x = y.
Proof.
  induction l as [|a l IH]; simpl; intros Hnd Hx Hy Hfx Hfy; [contradiction|].
  destruct (f a) as [c|] eqn:Hfa.
  - inversion Hnd as [|? ? Hnotin Hnd']; subst.
    rewrite list_elem_of_In in Hnotin.
    destruct Hx as [->|Hx], Hy as [->|Hy]; [reflexivity| | |now apply IH].
    + exfalso. apply Hnotin. rewrite Hfx in Hfa. injection Hfa as <-.
      eapply in_omap; eassumption.
    + exfalso. apply Hnotin. rewrite Hfy in Hfa. injection Hfa as <-.
      eapply in_omap; eassumption.
  - destruct Hx as [->|Hx]; [congruence|].
    destruct Hy as [->|Hy]; [congruence|]. now apply IH.
Qed.

Lemma matches_inv (tok : string) (r : Row) :
  matches tok r = true -> short r = tok \/ custom_short r = Some tok.
Proof.
  unfold matches. intros H. apply orb_true_iff in H. destruct H as [H|H].
  - left. now apply String.eqb_eq.
  - right. destruct (custom_short r) as [c|]; [|discriminate].
    apply String.eqb_eq in H. now subst.
Qed.

Lemma matches_unique (tok : string) (d : list Row) (r1 r2 : Row) :
  db_ok d -> In r1 d -> In r2 d ->
  matches tok r1 = true -> matches tok r2 = true -> r1 = r2.
Proof.
  intros (Hs & Hc & Hrows) H1 H2 M1 M2.
  rewrite List.Forall_forall in Hrows.
  destruct (Hrows r1 H1) as (Hne1 & Hcs1 & _).
  destruct (Hrows r2 H2) as (Hne2 & Hcs2 & _).
  apply matches_inv in M1, M2.
  assert (Hshort : short r1 = short r2 -> r1 = r2).
  { intros Heq. eapply NoDup_map_inj; eassumption. }
  destruct M1 as [M1|M1], M2 as [M2|M2].
  - apply Hshort. congruence.
  - apply Hshort. destruct Hcs2 as [Hn|[He|Hsame]]; congruence.
  - apply Hshort. destruct Hcs1 as [Hn|[He|Hsame]]; congruence.
  - eapply NoDup_omap_inj; eassumption.
Qed.

Lemma find_the_link (tok : string) (d : list Row) (r : Row) :
  db_ok d -> In r d -> matches tok r = true -> find (matches tok) d = Some r.
Proof.
  intros Hok Hin Hm. destruct (find (matches tok) d) as [r'|] eqn:Hf.
  - apply find_some in Hf. destruct Hf as [Hin' Hm'].
    f_equal. eapply matches_unique; eassumption.
  - exfalso. pose proof (find_none _ _ Hf r Hin) as Hno. congruence.
Qed.

(** *** The UPDATE of the counter *)

Lemma matches_set_access_count (tok : string) (c : Z) (r : Row) :
  matches tok (set_access_count c r) = matches tok r.
Proof. reflexivity. Qed.

Lemma find_update (tok : string) (c : Z) (d : list Row) (r : Row) :
  find (matches tok) d = Some r ->
  find (matches tok) (update_access_count c tok d) = Some (set_access_count c r).
Proof.
  induction d as [|a d IH]; simpl; [discriminate|].
  destruct (matches tok a) eqn:Hm.
  - intros [= ->]. rewrite matches_set_access_count, Hm. reflexivity.
  - intros H. rewrite Hm. now apply IH.
Qed.

Lemma update_keeps_others (tok : string) (c : Z) (d : list Row) (x : Row) :
  In x d -> matches tok x = false -> In x (update_access_count c tok d).
Proof.
  intros Hin Hm. unfold update_access_count. apply in_map_iff.
  exists x. rewrite Hm. now split.
Qed.

Lemma set_access_count_twice (c1 c2 : Z) (r : Row) :
  set_access_count c2 (set_access_count c1 r) = set_access_count c2 r.
Proof. reflexivity. Qed.

(** One resolution that redirects and whose UPDATE works adds one to the
    counter of the row the queries see, on either path. *)
Lemma redirect_bumps (e : Env) (tok : string) (st : State) (r : Row) :
  find (matches tok) (db st) = Some r ->
  update_fails e = false ->
  is_redirect (snd (redirectURL e tok st)) = true ->
  db (fst (redirectURL e tok st))
  = update_access_count (wrap_int (access_count r + 1)) tok (db st).
Proof.
  intros Hf Hupd. unfold redirectURL, resolve_miss, resolve_hit, QueryRow.
  destruct (rdb_Get e tok (rdb st)); [| |discriminate].
  - destruct (select_fails e); [discriminate|]. rewrite Hf. simpl.
    intros _. now rewrite db_bump, Hupd.
  - destruct (select_fails e); [discriminate|]. rewrite Hf.
    destruct (has_expired e r); [discriminate|]. simpl.
    intros _. now rewrite db_rdb_Set, db_bump, Hupd.
Qed.

(** *** The tables the server can reach *)

Lemma short_taken_false (s : string) (d : list Row) :
  short_taken s d = false -> ~ In s (map short d).
Proof.
  unfold short_taken. induction d as [|r d IH]; simpl; [tauto|].
  intros H. apply orb_false_iff in H. destruct H as [Hr Hd].
  intros [Heq|Hin]; [|now apply IH].
  apply String.eqb_neq in Hr. contradiction.
Qed.

Lemma custom_taken_false (c : string) (d : list Row) :
  custom_taken c d = false -> ~ In c (omap custom_short d).
Proof.
  unfold custom_taken. induction d as [|r d IH]; simpl; [tauto|].
  intros H. apply orb_false_iff in H. destruct H as [Hr Hd].
  destruct (custom_short r) as [c'|]; [|now apply IH].
  intros [Heq|Hin]; [|now apply IH].
  apply String.eqb_neq in Hr. contradiction.
Qed.

Lemma omap_map_same {A B : Type} (f : A -> option B) (g : A -> A) (d : list A) :
  (forall x, f (g x) = f x) -> omap f (map g d) = omap f d.
Proof.
  intros H. induction d as [|r d IH]; [reflexivity|].
  cbn. rewrite H, IH. reflexivity.
Qed.

Lemma db_ok_nil : db_ok [].
Proof. repeat split; constructor. Qed.

Lemma db_ok_update (c : Z) (tok : string) (d : list Row) :
  minInt <= c <= maxInt -> db_ok d -> db_ok (update_access_count c tok d).
Proof.
  intros Hc (Hs & Hcs & Hrows). unfold update_access_count.
  assert (Hshort : map short (map (fun r => if matches tok r
                     then set_access_count c r else r) d) = map short d).
  { rewrite map_map. apply map_ext. intros r. now destruct (matches tok r). }
  assert (Hcust : omap custom_short (map (fun r => if matches tok r
                     then set_access_count c r else r) d) = omap custom_short d).
  { apply omap_map_same. intros r. now destruct (matches tok r). }
  split; [now rewrite Hshort|]. split; [now rewrite Hcust|].
  apply List.Forall_forall. intros x Hx. apply in_map_iff in Hx.
  destruct Hx as (r & <- & Hr).
  rewrite List.Forall_forall in Hrows. specialize (Hrows r Hr).
  destruct (matches tok r); [|exact Hrows].
  destruct Hrows as (H1 & H2 & _). repeat split; try assumption; apply Hc.
Qed.

Lemma db_ok_insert (e : Env) (u : URL) (d d' : list Row) (q i : Z) :
  db_ok d ->
  Short u <> "" ->
  CustomShort u = "" \/ CustomShort u = Short u ->
  Exec_insert e u d q = inr (d', i) ->
  db_ok d'.
Proof.
  intros (Hs & Hcs & Hrows) Hne Hcu Hins.
  apply Exec_insert_inv in Hins. destruct Hins as (_ & Hst & Hct & _ & ->).
  apply short_taken_false in Hst. apply custom_taken_false in Hct.
  split; [|split].
  - rewrite map_app. apply NoDup_app. split; [exact Hs|]. split.
    + intros x Hx Hx'. simpl in Hx'. apply list_elem_of_In in Hx, Hx'.
      destruct Hx' as [<-|[]]. contradiction.
    + simpl. repeat constructor. intros H. apply list_elem_of_In in H.
      contradiction.
  - rewrite omap_app. apply NoDup_app. split; [exact Hcs|]. split.
    + intros x Hx Hx'. simpl in Hx'. apply list_elem_of_In in Hx, Hx'.
      destruct Hx' as [<-|[]]. contradiction.
    + simpl. repeat constructor. intros H. apply list_elem_of_In in H.
      contradiction.
  - apply Forall_app. split; [exact Hrows|]. constructor; [|constructor].
    unfold row_ok. simpl. split; [exact Hne|]. split.
    + destruct Hcu as [Hcu|Hcu]; rewrite Hcu; auto.
    + unfold minInt, maxInt. lia.
Qed.

Section Reachable.
Variable isURL : string -> bool.

Lemma db_ok_handle (e : Env) (rq : Request) (st : State) :
  db_ok (db st) -> db_ok (db (fst (handle isURL e rq st))).
Proof.
  intros Hok. destruct rq as [body|tok|]; simpl.
  - destruct (shortenURL_cases isURL e body st) as [[-> _]|Hins]; [exact Hok|].
    destruct Hins as (req & u & i & _ & _ & _ & _ & _ & Hne & Hcu & _ & Hins & _).
    eapply db_ok_insert; eassumption.
  - destruct (redirectURL_db e tok st) as [->|(c & Hc & ->)]; [exact Hok|].
    now apply db_ok_update.
  - now rewrite getURLs_db.
Qed.

(** Every table the server reaches from the empty one is well formed. *)
Lemma db_ok_run (evs : list Event) (st : State) :
  db_ok (db st) -> db_ok (db (fst (run isURL evs st))).
Proof.
  revert st. induction evs as [|ev evs IH]; intros st Hok; [exact Hok|].
  destruct ev as [e rq|k]; simpl.
  - pose proof (db_ok_handle e rq st Hok) as H1.
    destruct (handle isURL e rq st) as [st1 r]. simpl in H1.
    specialize (IH st1 H1).
    destruct (run isURL evs st1) as [st2 rs]. exact IH.
  - apply IH. exact Hok.
Qed.

Lemma db_ok_reachable (evs : list Event) (rnd : Rand) :
  db_ok (db (fst (run isURL evs (init rnd)))).
Proof. apply db_ok_run. apply db_ok_nil. Qed.

(** *** Counting resolutions *)

Lemma run_resolutions_cons (tok : string) (ev : bool) (e : Env)
  (steps : list (bool * Env)) (st : State) :
  run isURL (resolutions tok ((ev, e) :: steps)) st =
  let st0 := if ev then evict tok st else st in
  let '(st1, r) := redirectURL e tok st0 in
  let '(st2, rs) := run isURL (resolutions tok steps) st1 in
  (st2, r :: rs).
Proof. unfold resolutions. simpl. destruct ev; reflexivity. Qed.

Lemma set_access_count_same (r : Row) : set_access_count (access_count r) r = r.
Proof. now destruct r. Qed.

Lemma resolutions_count (tok : string) (steps : list (bool * Env)) :
  forall (st : State) (r : Row),
  find (matches tok) (db st) = Some r ->
  Forall (fun s => update_fails (snd s) = false) steps ->
  forallb is_redirect (snd (run isURL (resolutions tok steps) st)) = true ->
  minInt <= access_count r ->
  access_count r + Z.of_nat (length steps) <= maxInt ->
  let st' := fst (run isURL (resolutions tok steps) st) in
  find (matches tok) (db st')
  = Some (set_access_count (access_count r + Z.of_nat (length steps)) r)
  /\ length (snd (run isURL (resolutions tok steps) st)) = length steps
  /\ (forall x, In x (db st) -> matches tok x = false -> In x (db st')).
Proof.
  induction steps as [|[ev e] steps IH]; intros st r Hf Hupd Hred Hlo Hhi.
  - simpl. rewrite Z.add_0_r, set_access_count_same. now repeat split.
  - rewrite run_resolutions_cons in Hred |- *.
    set (st0 := if ev then evict tok st else st) in *.
    assert (Hdb0 : db st0 = db st) by (subst st0; now destruct ev).
    inversion Hupd as [|? ? Hu Hupd']; subst. simpl in Hu.
    pose proof (redirect_bumps e tok st0 r) as Hb. rewrite Hdb0 in Hb.
    specialize (Hb Hf Hu).
    cbv zeta in Hred |- *.
    destruct (redirectURL e tok st0) as [st1 resp] eqn:Hr1. simpl in Hb.
    destruct (run isURL (resolutions tok steps) st1) as [st2 rs] eqn:Hr2.
    simpl in Hred. apply andb_true_iff in Hred. destruct Hred as [Hresp Hrs].
    specialize (Hb Hresp).
    rewrite length_cons, Nat2Z.inj_succ in Hhi |- *.
    rewrite wrap_int_id in Hb by lia.
    pose proof (find_update tok (access_count r + 1) _ _ Hf) as Hf1.
    rewrite <- Hb in Hf1.
    specialize (IH st1 _ Hf1 Hupd'). rewrite Hr2 in IH. simpl in IH.
    destruct IH as (Hfind & Hlen & Hothers); [exact Hrs|lia|lia|].
    simpl. split; [|split].
    + rewrite Hfind. f_equal. unfold set_access_count. simpl. f_equal. lia.
    + now rewrite Hlen.
    + intros x Hx Hm. apply Hothers; [|exact Hm].
      rewrite Hb. now apply update_keeps_others.
Qed.

(** C8, as the code has it: after N resolutions of a token one after the
    other, each of them answered by the redirect and none with a failed
    counter write, the link of that token has its access count N higher than
    before (the sum staying within the range of [int]) and the other links
    are what they were, whichever of the resolutions found the token in the
    cache and whichever did not. *)
Theorem access_count_after_resolutions
  (tok : string) (steps : list (bool * Env)) (st : State) (r : Row) :
  db_ok (db st) ->
  In r (db st) ->
  matches tok r = true ->
  Forall (fun s => update_fails (snd s) = false) steps ->
  forallb is_redirect (snd (run isURL (resolutions tok steps) st)) = true ->
  access_count r + Z.of_nat (length steps) <= maxInt ->
  let st' := fst (run isURL (resolutions tok steps) st) in
  find (matches tok) (db st')
  = Some (set_access_count (access_count r + Z.of_nat (length steps)) r)
  /\ length (snd (run isURL (resolutions tok steps) st)) = length steps
  /\ (forall x, In x (db st) -> matches tok x = false -> In x (db st')).
Proof.
  intros Hok Hin Hm Hupd Hred Hhi.
  apply resolutions_count; try assumption.
  - now apply find_the_link.
  - destruct Hok as (_ & _ & Hrows). rewrite List.Forall_forall in Hrows.
    apply (Hrows r Hin).
Qed.

End Reachable.

(** *** Create, then resolve *)

Lemma find_app_some {A : Type} (f : A -> bool) (l : list A) (x : A) :
  f x = true -> exists y, find f (l ++ [x]) = Some y.
Proof.
  intros Hx. induction l as [|a l IH]; simpl.
  - rewrite Hx. now exists x.
  - destruct (f a); [now exists a | exact IH].
Qed.

Lemma find_app_new {A : Type} (f : A -> bool) (l : list A) (x : A) :
  (forall y, In y l -> f y = false) -> f x = true ->
  find f (l ++ [x]) = Some x.
Proof.
  intros Hl Hx. induction l as [|a l IH]; simpl.
  - now rewrite Hx.
  - rewrite (Hl a) by now left. apply IH. intros y Hy. apply Hl. now right.
Qed.

Lemma no_match_before_insert (tok : string) (d : list Row) :
  db_ok d -> short_taken tok d = false -> tok <> "" ->
  forall x, In x d -> matches tok x = false.
Proof.
  intros (_ & _ & Hrows) Hst Hne x Hx.
  apply short_taken_false in Hst.
  rewrite List.Forall_forall in Hrows. destruct (Hrows x Hx) as (_ & Hcs & _).
  destruct (matches tok x) eqn:Hm; [|reflexivity].
  exfalso. apply matches_inv in Hm.
  assert (Hshort : short x <> tok).
  { intros Heq. apply Hst. rewrite <- Heq. now apply in_map. }
  destruct Hm as [Hm|Hm]; [contradiction|].
  destruct Hcs as [Hn|[He|Hsame]]; congruence.
Qed.

Lemma matches_own_short (r : Row) : matches (short r) r = true.
Proof. unfold matches. now rewrite String.eqb_refl. Qed.

Section RoundTrip.
Variable isURL : string -> bool.

(** What a successful create leaves behind. *)
Lemma created_link (e : Env) (req : URL) (st : State) :
  is_ok (snd (shortenURL isURL e (Some req) st)) = true ->
  exists u i,
    snd (shortenURL isURL e (Some req) st) = JSON StatusOK (BURL (set_ID i u))
    /\ Original u = Original req
    /\ ExpirationDate u = ExpirationDate req
    /\ Short u <> ""
    /\ short_taken (Short u) (db st) = false
    /\ db (fst (shortenURL isURL e (Some req) st))
       = (db st ++ [mkRow i (Original u) (Short u) (QRCode u)
                          (Some (CustomShort u)) (Some (ExpirationDate u)) 0])%list
    /\ rdb (fst (shortenURL isURL e (Some req) st))
       = if set_fails e then rdb st else <[Short u := Original u]> (rdb st).
Proof.
  intros Hok.
  destruct (shortenURL_cases isURL e (Some req) st) as [[_ Hno]|Hins];
    [congruence|].
  destruct Hins as (req' & u & i & [= <-] & _ & Ho & _ & Hx & Hne & _ & _ & Hins & Hres).
  destruct (Hres Hok) as (_ & Hresp & Hrdb).
  apply Exec_insert_inv in Hins. destruct Hins as (_ & Hst & _ & _ & Hdb).
  exists u, i. repeat (split; [assumption|]). exact Hrdb.
Qed.

(** With the cache warmed by the create and the collaborators working, the
    token the create returned resolves to the original URL. *)
Lemma round_trip_when_cached (e1 e2 : Env) (req u : URL) (st : State) :
  snd (shortenURL isURL e1 (Some req) st) = JSON StatusOK (BURL u) ->
  set_fails e1 = false ->
  get_fails e2 = false ->
  select_fails e2 = false ->
  snd (redirectURL e2 (Short u) (fst (shortenURL isURL e1 (Some req) st)))
  = Redirect StatusMovedPermanently (Original req).
Proof.
  intros Hresp Hset Hget Hsel.
  destruct (created_link e1 req st) as (u' & i & Hr & Ho & _ & _ & _ & Hdb & Hrdb).
  { now rewrite Hresp. }
  rewrite Hresp in Hr. injection Hr as ->.
  rewrite Hset in Hrdb. unfold redirectURL.
  erewrite rdb_Get_hit; [|exact Hget|rewrite Hrdb; apply lookup_insert_eq].
  unfold resolve_hit, QueryRow. rewrite Hsel, Hdb.
  match goal with |- context [find _ (_ ++ [?row])] =>
    destruct (find_app_some (matches (Short (set_ID i u'))) (db st) row)
      as [y Hy] end.
  { apply matches_own_short. }
  rewrite Hy. simpl. now rewrite Ho.
Qed.

(** With the cache not holding the token, a link created without an
    expiration date is answered 410: the row holds the zero time, which is
    not NULL and lies before any present. *)
Lemma omitted_expiration_expires_on_miss (e1 e2 : Env) (req u : URL) (st : State) :
  db_ok (db st) ->
  ExpirationDate req = zeroTime ->
  snd (shortenURL isURL e1 (Some req) st) = JSON StatusOK (BURL u) ->
  get_fails e2 = false ->
  select_fails e2 = false ->
  zeroTime < now e2 ->
  redirectURL e2 (Short u)
    (evict (Short u) (fst (shortenURL isURL e1 (Some req) st)))
  = (Println (LogStr "Link has expired: " (Short u))
       (evict (Short u) (fst (shortenURL isURL e1 (Some req) st))),
     expired).
Proof.
  intros Hok Hzero Hresp Hget Hsel Hnow.
  destruct (created_link e1 req st) as (u' & i & Hr & _ & Hx & Hne & Hst & Hdb & _).
  { now rewrite Hresp. }
  rewrite Hresp in Hr. injection Hr as ->.
  unfold redirectURL.
  rewrite rdb_Get_miss; [|exact Hget|apply lookup_delete_eq].
  unfold resolve_miss, QueryRow. rewrite Hsel, db_evict, Hdb.
  rewrite find_app_new.
  - unfold has_expired. simpl. rewrite Hx, Hzero.
    unfold Before. destruct (Z.ltb_spec zeroTime (now e2)); [reflexivity|lia].
  - apply no_match_before_insert; assumption.
  - apply matches_own_short.
Qed.

End RoundTrip.

End ShorrtFacts.

(** ** The handlers on concrete requests *)

Module Scenarios.
Import Token Shorrt Samples ShorrtFacts.

(** *** Expiry and the cache *)

(** On a cache hit the expiry check is not reached at all. *)
Lemma cache_hit_skips_expiry (e : Env) (tok url : string) (st : State) (r : Row) :
  rdb_Get e tok (rdb st) = Hit url ->
  QueryRow e tok (db st) = inr r ->
  snd (redirectURL e tok st) = Redirect StatusMovedPermanently url.
Proof.
  intros Hget Hq. unfold redirectURL, resolve_hit. now rewrite Hget, Hq.
Qed.

(** C1 fails on the code: ex1, created in 2023 to expire in 2024, is resolved
    in 2025.  Its row says it has expired and the store path answers 410, but
    the create has put the token in the cache, and from there the request is
    answered by the redirect to the original URL, the counter going up. *)
Theorem expired_link_served_from_cache :
  find (matches "ex1") (db st_ex1)
    = Some (mkRow 1 "https://example.com" "ex1" "qrcodes/ex1.png" (Some "ex1")
                  (Some t2024) 0)
  /\ Before t2024 t2025 = true
  /\ rdb st_ex1 !! "ex1" = Some "https://example.com"
  /\ snd (redirectURL (healthy t2025) "ex1" st_ex1)
     = Redirect StatusMovedPermanently "https://example.com"
  /\ map access_count (db (fst (redirectURL (healthy t2025) "ex1" st_ex1))) = [1]
  /\ snd (redirectURL (healthy t2025) "ex1" (evict "ex1" st_ex1)) = expired.
Proof. vm_compute. repeat split. Qed.

(** C3 fails on the code: a create without expiration date whose cache write
    fails (which is logged and no more) returns the record of the link, token
    "abcdef"; resolving that token right away, everything working, is
    answered 410 and not by the redirect to the original URL. *)
Theorem round_trip_broken_by_cold_cache :
  let created := shortenURL sample_isURL (cache_write_down t2023)
                   (Some req_plain) (init rnd0) in
  snd created
    = JSON StatusOK (BURL (mkURL 1 "https://example.com" "abcdef"
                             "qrcodes/abcdef.png" "" zeroTime 0))
  /\ rdb (fst created) !! "abcdef" = None
  /\ sample_isURL (Original req_plain) = true
  /\ snd (redirectURL (healthy t2023) "abcdef" (fst created)) = expired
  /\ snd (redirectURL (healthy t2023) "abcdef" (fst created))
     <> Redirect StatusMovedPermanently (Original req_plain).
Proof. vm_compute. repeat split. discriminate. Qed.

(** C4 fails on the code: a link created without expiration date has the zero
    time in its row, not NULL.  While the cache holds its token it resolves;
    once the cache has lost the token the same request is answered 410 "URL
    has expired", the table being left as it was. *)
Theorem link_without_expiration_expires_on_miss :
  let st := fst (shortenURL sample_isURL (healthy t2023) (Some req_plain)
                   (init rnd0)) in
  ExpirationDate req_plain = zeroTime
  /\ map expiration_date (db st) = [Some zeroTime]
  /\ snd (redirectURL (healthy t2024) "abcdef" st)
     = Redirect StatusMovedPermanently "https://example.com"
  /\ snd (redirectURL (healthy t2024) "abcdef" (evict "abcdef" st)) = expired
  /\ db (fst (redirectURL (healthy t2024) "abcdef" (evict "abcdef" st))) = db st.
Proof. vm_compute. repeat split. Qed.

(** *** Errors of the collaborators, observed *)

(** C5 as stated fails: with ex1 alive in the store, a failing cache lookup
    is answered 500, although the store path would have redirected. *)
Lemma cache_lookup_error_fails_request :
  get_fails (cache_read_down t2024) = true
  /\ snd (redirectURL (cache_read_down t2024) "ex1" st_ex1_live) = internal_error
  /\ db (fst (redirectURL (cache_read_down t2024) "ex1" st_ex1_live))
     = db st_ex1_live
  /\ snd (resolve_miss (cache_read_down t2024) "ex1" st_ex1_live)
     = Redirect StatusMovedPermanently "https://example.com".
Proof. vm_compute. repeat split. Qed.

(** C6 as stated fails: the cache has given the original URL of ex1, the
    read of the counter fails in the store, and the request is answered 500
    instead of the redirect. *)
Lemma counter_read_error_fails_request :
  rdb_Get (store_read_down t2024) "ex1" (rdb st_ex1_live)
    = Hit "https://example.com"
  /\ select_fails (store_read_down t2024) = true
  /\ snd (redirectURL (store_read_down t2024) "ex1" st_ex1_live) = internal_error
  /\ is_redirect (snd (redirectURL (store_read_down t2024) "ex1" st_ex1_live))
     = false.
Proof. vm_compute. repeat split. Qed.

(** C8 as stated fails: one resolution of ex1 whose counter write fails is
    answered by the redirect, and the access count is still 0. *)
Lemma redirect_without_count :
  let steps := [(false, counter_write_down t2024)] in
  let res := run sample_isURL (resolutions "ex1" steps) st_ex1_live in
  find (matches "ex1") (db st_ex1_live) = Some row_ex1
  /\ forallb is_redirect (snd res) = true
  /\ find (matches "ex1") (db (fst res)) = Some row_ex1
  /\ access_count row_ex1 <> access_count row_ex1 + Z.of_nat (length steps).
Proof. vm_compute. repeat split. discriminate. Qed.

(** The counter wraps at the end of the range of [int]: with the count of
    ex1 at the largest [int], one more resolution, everything working, is
    answered by the redirect and leaves the smallest [int] in the row. *)
Lemma wrap_int_at_max : wrap_int (maxInt + 1) = minInt.
Proof. reflexivity. Qed.

Lemma count_wraps_at_maxInt :
  map access_count (db st_ex1_full) = [maxInt]
  /\ snd (redirectURL (healthy t2024) "ex1" st_ex1_full)
     = Redirect StatusMovedPermanently "https://example.com"
  /\ map access_count (db (fst (redirectURL (healthy t2024) "ex1" st_ex1_full)))
     = [minInt].
Proof. vm_compute. repeat split. Qed.

(** *** The theorems at work *)

Lemma db_ok_st_ex1_live : db_ok (db st_ex1_live).
Proof.
  exact (db_ok_handle sample_isURL (healthy t2023)
           (POST_shorten (Some (req_ex1 t2025))) (init rnd0) db_ok_nil).
Qed.

Lemma second_create_without_custom_fails_witness :
  let e := healthy t2023 in
  let evs := [Call (healthy t2024) (GET_short "abcdef")] in
  let st1 := fst (shortenURL sample_isURL e (Some req_plain) (init rnd0)) in
  let st2 := fst (run sample_isURL evs st1) in
  (CustomShort req_plain = "" /\ CustomShort req_plain2 = ""
   /\ is_ok (snd (shortenURL sample_isURL e (Some req_plain) (init rnd0))) = true)
  /\ custom_taken "" (db st2) = true
  /\ is_ok (snd (shortenURL sample_isURL e (Some req_plain2) st2)) = false
  /\ db (fst (shortenURL sample_isURL e (Some req_plain2) st2)) = db st2
  /\ (validate_Struct sample_isURL req_plain2 = true -> qr_fails e = false ->
      insert_fails e = false ->
      exists col, snd (shortenURL sample_isURL e (Some req_plain2) st2)
                  = JSON StatusInternalServerError (BErr (ErrUnique col))).
Proof.
  split; [repeat split|].
  apply (second_create_without_custom_fails sample_isURL
           (healthy t2023) (healthy t2023) req_plain req_plain2
           [Call (healthy t2024) (GET_short "abcdef")] (init rnd0));
    reflexivity.
Defined.

Lemma cache_lookup_error_is_fatal_witness :
  get_fails (cache_read_down t2024) = true
  /\ redirectURL (cache_read_down t2024) "ex1" st_ex1_live =
       (Println (LogErr "Error querying cache: " ErrCache) st_ex1_live,
        internal_error)
  /\ db (fst (redirectURL (cache_read_down t2024) "ex1" st_ex1_live))
     = db st_ex1_live
  /\ rdb (fst (redirectURL (cache_read_down t2024) "ex1" st_ex1_live))
     = rdb st_ex1_live.
Proof.
  split; [reflexivity|].
  apply (cache_lookup_error_is_fatal (cache_read_down t2024) "ex1" st_ex1_live).
  reflexivity.
Defined.

Lemma counter_write_error_not_fatal_witness :
  let e := counter_write_down t2024 in
  update_fails e = true
  /\ snd (redirectURL e "ex1" st_ex1_live)
     = Redirect StatusMovedPermanently "https://example.com"
  /\ snd (redirectURL e "ex1" st_ex1_live)
     = snd (redirectURL (with_update_fails false e) "ex1" st_ex1_live)
  /\ db (fst (redirectURL e "ex1" st_ex1_live)) = db st_ex1_live
  /\ In (LogErr "Error updating access count: " ErrStore)
        (logged (fst (redirectURL e "ex1" st_ex1_live))).
Proof.
  intros e. split; [reflexivity|]. split; [vm_compute; reflexivity|].
  destruct (counter_write_error_not_fatal e "ex1" st_ex1_live)
    as (Hresp & Hdb & Hlog & _); [reflexivity|].
  split; [exact Hresp|]. split; [exact Hdb|].
  apply Hlog. vm_compute. reflexivity.
Defined.

Lemma expired_in_store_leaves_state_witness :
  let e := healthy t2025 in
  let st := evict "ex1" st_ex1 in
  let st' := fst (redirectURL e "ex1" st) in
  (rdb_Get e "ex1" (rdb st) = Nil /\ Before t2024 (now e) = true)
  /\ snd (redirectURL e "ex1" st) = expired
  /\ db st' = db st
  /\ db_seq st' = db_seq st
  /\ rdb st' = rdb st
  /\ qrcodes st' = qrcodes st
  /\ logged st' = (logged st ++ [LogStr "Link has expired: " "ex1"])%list.
Proof.
  split; [split; vm_compute; reflexivity|].
  apply (expired_in_store_leaves_state (healthy t2025) "ex1" (evict "ex1" st_ex1)
           (mkRow 1 "https://example.com" "ex1" "qrcodes/ex1.png" (Some "ex1")
                  (Some t2024) 0) t2024); vm_compute; reflexivity.
Defined.

Lemma invalid_original_rejected_witness :
  let e := healthy t2023 in
  let st := init rnd0 in
  let st' := fst (shortenURL sample_isURL e (Some req_bad) st) in
  sample_isURL (Original req_bad) = false
  /\ snd (shortenURL sample_isURL e (Some req_bad) st)
     = JSON StatusBadRequest (BErr ErrValidation)
  /\ db st' = db st
  /\ db_seq st' = db_seq st
  /\ rdb st' = rdb st
  /\ qrcodes st' = qrcodes st
  /\ seededRand st' = seededRand st.
Proof.
  split; [reflexivity|].
  apply (invalid_original_rejected sample_isURL (healthy t2023) req_bad (init rnd0)).
  reflexivity.
Defined.

(** Three resolutions of ex1: from the cache, from the cache, and from the
    store after the cache has lost the token. *)
Lemma access_count_after_resolutions_witness :
  let steps := [(false, healthy t2024); (false, healthy t2024);
                (true, healthy t2024)] in
  let res := run sample_isURL (resolutions "ex1" steps) st_ex1_live in
  (In row_ex1 (db st_ex1_live) /\ matches "ex1" row_ex1 = true
   /\ forallb is_redirect (snd res) = true)
  /\ find (matches "ex1") (db (fst res))
     = Some (set_access_count (access_count row_ex1 + 3) row_ex1)
  /\ length (snd res) = 3%nat
  /\ (forall x, In x (db st_ex1_live) -> matches "ex1" x = false ->
      In x (db (fst res))).
Proof.
  split; [split; [left; reflexivity | split; vm_compute; reflexivity]|].
  apply (access_count_after_resolutions sample_isURL "ex1"
           [(false, healthy t2024); (false, healthy t2024); (true, healthy t2024)]
           st_ex1_live row_ex1).
  - exact db_ok_st_ex1_live.
  - left. reflexivity.
  - reflexivity.
  - repeat constructor.
  - vm_compute. reflexivity.
  - vm_compute. discriminate.
Defined.

End Scenarios.

(** ** More on the handlers: what one request does to the state *)

Module Effects.
Import Token Shorrt Invariants ShorrtFacts.

(** *** Strings *)

Lemma length_append (a b : string) :
  String.length (a +:+ b) = (String.length a + String.length b)%nat.
Proof. induction a as [|c a IH]; simpl; [reflexivity | now rewrite IH]. Qed.

Lemma append_inj_l (p a b : string) : p +:+ a = p +:+ b -> a = b.
Proof.
  induction p as [|c p IH]; simpl; intros H; [exact H|].
  injection H as H. now apply IH.
Qed.

Lemma append_inj_r (t a b : string) : a +:+ t = b +:+ t -> a = b.
Proof.
  revert b. induction a as [|c a IH]; intros [|c' b] H; simpl in H.
  - reflexivity.
  - exfalso. apply (f_equal String.length) in H.
    rewrite ?length_append in H. simpl in H. rewrite ?length_append in H. lia.
  - exfalso. apply (f_equal String.length) in H.
    rewrite ?length_append in H. simpl in H. rewrite ?length_append in H. lia.
  - injection H as -> H. f_equal. now apply IH.
Qed.

Lemma qr_path_inj (a b : string) : qr_path a = qr_path b -> a = b.
Proof.
  unfold qr_path. intros H. apply append_inj_l in H.
  now apply append_inj_r in H.
Qed.

(** *** One resolution *)

(** The three ways a resolution ends. *)
Lemma redirectURL_effect (e : Env) (tok : string) (st : State) :
  (exists l resp,
     redirectURL e tok st = (Println l st, resp)
     /\ (resp = internal_error \/ resp = not_found \/ resp = expired))
  \/ (exists url r,
        get_fails e = false /\ rdb st !! tok = Some url
        /\ select_fails e = false /\ find (matches tok) (db st) = Some r
        /\ redirectURL e tok st
           = (bump e tok r st, Redirect StatusMovedPermanently url))
  \/ (exists r,
        get_fails e = false /\ rdb st !! tok = None
        /\ select_fails e = false /\ find (matches tok) (db st) = Some r
        /\ has_expired e r = false
        /\ redirectURL e tok st
           = (rdb_Set e tok (original r) (bump e tok r st),
              Redirect StatusMovedPermanently (original r))).
Proof.
  unfold redirectURL, resolve_miss, resolve_hit, rdb_Get, QueryRow.
  destruct (get_fails e); [left; eexists _, _; split; [reflexivity|tauto]|].
  destruct (rdb st !! tok) as [url|].
  - destruct (select_fails e); [left; eexists _, _; split; [reflexivity|tauto]|].
    destruct (find (matches tok) (db st)) as [r|];
      [|left; eexists _, _; split; [reflexivity|tauto]].
    right. left. exists url, r. repeat split.
  - destruct (select_fails e); [left; eexists _, _; split; [reflexivity|tauto]|].
    destruct (find (matches tok) (db st)) as [r|];
      [|left; eexists _, _; split; [reflexivity|tauto]].
    destruct (has_expired e r) eqn:Hexp;
      [left; eexists _, _; split; [reflexivity|tauto]|].
    right. right. exists r. repeat split. exact Hexp.
Qed.

(** A failed resolution leaves everything but the log as it was. *)
Lemma failed_resolution_frame (e : Env) (tok : string) (st : State) :
  is_redirect (snd (redirectURL e tok st)) = false ->
  exists l, fst (redirectURL e tok st) = Println l st.
Proof.
  intros Hno.
  destruct (redirectURL_effect e tok st)
    as [(l & resp & Heq & _)|[(url & r & _ & _ & _ & _ & Heq)|(r & _ & _ & _ & _ & _ & Heq)]].
  - exists l. now rewrite Heq.
  - rewrite Heq in Hno. discriminate.
  - rewrite Heq in Hno. discriminate.
Qed.

Lemma bump_frame (e : Env) (tok : string) (r : Row) (st : State) :
  db_seq (bump e tok r st) = db_seq st
  /\ qrcodes (bump e tok r st) = qrcodes st
  /\ seededRand (bump e tok r st) = seededRand st.
Proof. unfold bump, Exec_update. now destruct (update_fails e). Qed.

Lemma rdb_Set_frame (e : Env) (k v : string) (st : State) :
  db_seq (rdb_Set e k v st) = db_seq st
  /\ qrcodes (rdb_Set e k v st) = qrcodes st
  /\ seededRand (rdb_Set e k v st) = seededRand st.
Proof. unfold rdb_Set. now destruct (set_fails e). Qed.

Lemma rdb_rdb_Set (e : Env) (k v : string) (st : State) :
  rdb (rdb_Set e k v st) = if set_fails e then rdb st else <[k := v]> (rdb st).
Proof. unfold rdb_Set. now destruct (set_fails e). Qed.

(** *** One create *)

Section CreateEffect.
Variable isURL : string -> bool.

(** [shortenURL] on a bound body, its intermediate states written out. *)
Lemma shortenURL_Some (e : Env) (req : URL) (st : State) :
  shortenURL isURL e (Some req) st =
  if negb (validate_Struct isURL req)
  then (Println (LogErr "Validation error: " ErrValidation) st,
        JSON StatusBadRequest (BErr ErrValidation))
  else
    match (if negb (String.eqb (CustomShort req) "")
           then Some (CustomShort req, seededRand st)
           else generateShortLink (seededRand st)) with
    | None => (st, Abort StatusInternalServerError)
    | Some (sh, rnd) =>
        if qr_fails e
        then (Println (LogErr "Error generating QR code: " ErrQRCode)
                (set_seededRand rnd st),
              JSON StatusInternalServerError (BErr ErrQRCode))
        else
          let st2 := mkState (db st) (db_seq st) (rdb st)
                       (<[qr_path sh := sh]> (qrcodes st)) rnd (logged st) in
          let u2 := set_QRCode (qr_path sh) (set_Short sh req) in
          match Exec_insert e u2 (db st) (db_seq st) with
          | inl err =>
              (Println (LogErr "Error inserting into database: " err) st2,
               JSON StatusInternalServerError (BErr err))
          | inr (d, i) =>
              let st3 := mkState d i (rdb st)
                           (<[qr_path sh := sh]> (qrcodes st)) rnd (logged st) in
              if last_id_fails e
              then (Println (LogErr "Error getting last insert ID: " ErrStore) st3,
                    JSON StatusInternalServerError (BErr ErrStore))
              else (rdb_Set e sh (Original req) st3,
                    JSON StatusOK (BURL (set_ID i u2)))
          end
    end.
Proof. reflexivity. Qed.

(** A create either stops before the INSERT has worked (and has at most
    written an image), or has inserted one row. *)
Lemma shortenURL_effect (e : Env) (body : option URL) (st : State) :
  let st' := fst (shortenURL isURL e body st) in
  let resp := snd (shortenURL isURL e body st) in
  (is_ok resp = false /\ db st' = db st /\ db_seq st' = db_seq st
   /\ rdb st' = rdb st
   /\ (qrcodes st' = qrcodes st
       \/ exists sh, qrcodes st' = <[qr_path sh := sh]> (qrcodes st)))
  \/ exists req sh i,
       body = Some req
       /\ validate_Struct isURL req = true
       /\ sh <> ""
       /\ (if String.eqb (CustomShort req) ""
           then generateShortLink (seededRand st) = Some (sh, seededRand st')
           else sh = CustomShort req /\ seededRand st' = seededRand st)
       /\ qr_fails e = false
       /\ Exec_insert e (set_QRCode (qr_path sh) (set_Short sh req))
            (db st) (db_seq st) = inr (db st', i)
       /\ db_seq st' = i
       /\ qrcodes st' = <[qr_path sh := sh]> (qrcodes st)
       /\ ((last_id_fails e = false
            /\ resp = JSON StatusOK
                        (BURL (set_ID i (set_QRCode (qr_path sh) (set_Short sh req))))
            /\ rdb st' = if set_fails e then rdb st
                         else <[sh := Original req]> (rdb st))
           \/ (last_id_fails e = true
               /\ resp = JSON StatusInternalServerError (BErr ErrStore)
               /\ rdb st' = rdb st)).
Proof.
  cbv zeta. destruct body as [req|].
  2:{ left. repeat split. now left. }
  rewrite shortenURL_Some.
  destruct (validate_Struct isURL req) eqn:Hval; cbn [negb].
  2:{ left. repeat split. now left. }
  assert (Hpick : exists sh rnd,
            (if negb (String.eqb (CustomShort req) "")
             then Some (CustomShort req, seededRand st)
             else generateShortLink (seededRand st)) = Some (sh, rnd)
            /\ sh <> ""
            /\ (if String.eqb (CustomShort req) ""
                then generateShortLink (seededRand st) = Some (sh, rnd)
                else sh = CustomShort req /\ rnd = seededRand st)).
  { destruct (String.eqb_spec (CustomShort req) "") as [Hc|Hc]; cbn [negb].
    - destruct (TokenFacts.generateShortLink_total (seededRand st))
        as (sh & rnd & Hgen & _).
      exists sh, rnd. split; [exact Hgen|]. split; [|exact Hgen].
      eapply generated_not_empty; exact Hgen.
    - exists (CustomShort req), (seededRand st). repeat split. exact Hc. }
  destruct Hpick as (sh & rnd & -> & Hne & Hrnd).
  destruct (qr_fails e) eqn:Hqr.
  { left. repeat split. now left. }
  cbv zeta.
  destruct (Exec_insert e (set_QRCode (qr_path sh) (set_Short sh req))
              (db st) (db_seq st)) as [err|[d' i]] eqn:Hins.
  { left. repeat split. right. now exists sh. }
  right. exists req, sh, i. split; [reflexivity|]. split; [exact Hval|].
  split; [exact Hne|].
  destruct (last_id_fails e) eqn:Hlast.
  - cbn [fst snd seededRand Println db db_seq qrcodes rdb].
    split; [exact Hrnd|]. do 4 (split; [first [assumption|reflexivity]|]).
    right. repeat split.
  - cbn [fst snd].
    destruct (rdb_Set_frame e sh (Original req)
                (mkState d' i (rdb st) (<[qr_path sh := sh]> (qrcodes st)) rnd
                         (logged st))) as (Hq & Hf & Hr).
    rewrite Hr, Hq, Hf, db_rdb_Set, rdb_rdb_Set.
    cbn [seededRand db db_seq qrcodes rdb].
    split; [exact Hrnd|]. do 4 (split; [first [assumption|reflexivity]|]).
    left. repeat split.
Qed.

End CreateEffect.

(** *** The invariant, step by step *)

Lemma link_of_fields (r r' : Row) :
  link_of r' = link_of r ->
  id r' = id r /\ original r' = original r /\ short r' = short r
  /\ qr_code r' = qr_code r /\ custom_short r' = custom_short r
  /\ expiration_date r' = expiration_date r.
Proof. unfold link_of, set_access_count. intros [= -> -> -> -> -> ->]. repeat split. Qed.

Lemma link_of_matches (k : string) (r r' : Row) :
  link_of r' = link_of r -> matches k r' = matches k r.
Proof.
  intros H. apply link_of_fields in H.
  destruct H as (_ & _ & Hs & _ & Hc & _). unfold matches. now rewrite Hs, Hc.
Qed.

Lemma link_of_update (c : Z) (tok : string) (d : list Row) :
  map link_of (update_access_count c tok d) = map link_of d.
Proof.
  unfold update_access_count. rewrite map_map. apply map_ext.
  intros r. now destruct (matches tok r).
Qed.

Lemma in_link_of (d d' : list Row) (extra : list Row) (r : Row) :
  map link_of d' = (map link_of d ++ extra)%list ->
  In r d -> exists r', In r' d' /\ link_of r' = link_of r.
Proof.
  intros Hmap Hin.
  assert (Hl : In (link_of r) (map link_of d')).
  { rewrite Hmap. apply in_or_app. left. now apply in_map. }
  apply in_map_iff in Hl. destruct Hl as (r' & Heq & Hr'). now exists r'.
Qed.

(** The invariant reads the table, the cache and the images only. *)
Lemma inv_fields (st1 st2 : State) :
  db st2 = db st1 -> rdb st2 = rdb st1 -> qrcodes st2 = qrcodes st1 ->
  inv st1 -> inv st2.
Proof.
  unfold inv, cache_ok, images_ok. intros -> -> ->. tauto.
Qed.

Lemma inv_init (rnd : Rand) : inv (init rnd).
Proof.
  split; [exact db_ok_nil|]. split; [|split; constructor].
  intros k v H. simpl in H. rewrite lookup_empty in H. discriminate.
Qed.

Lemma inv_update (c : Z) (tok : string) (st st' : State) :
  minInt <= c <= maxInt ->
  db st' = update_access_count c tok (db st) ->
  rdb st' = rdb st -> qrcodes st' = qrcodes st ->
  inv st -> inv st'.
Proof.
  intros Hc Hdb Hrdb Hqr (Hok & Hcache & Hscan & Himg).
  split; [|split; [|split]].
  - rewrite Hdb. now apply db_ok_update.
  - intros k v Hk. rewrite Hrdb in Hk.
    destruct (Hcache k v Hk) as (r & Hin & Hm & Ho).
    destruct (in_link_of (db st) (db st') [] r) as (r' & Hin' & Hl).
    { rewrite Hdb, link_of_update, app_nil_r. reflexivity. }
    { exact Hin. }
    exists r'. split; [exact Hin'|].
    rewrite (link_of_matches k _ _ Hl). split; [exact Hm|].
    apply link_of_fields in Hl. destruct Hl as (_ & -> & _). exact Ho.
  - unfold rows_scannable in *. rewrite Hdb. unfold update_access_count.
    apply List.Forall_forall. intros x Hx. apply in_map_iff in Hx.
    destruct Hx as (r & <- & Hr).
    rewrite List.Forall_forall in Hscan. specialize (Hscan r Hr).
    now destruct (matches tok r).
  - unfold images_ok in *. rewrite Hdb, Hqr. unfold update_access_count.
    apply List.Forall_forall. intros x Hx. apply in_map_iff in Hx.
    destruct Hx as (r & <- & Hr).
    rewrite List.Forall_forall in Himg. specialize (Himg r Hr).
    now destruct (matches tok r).
Qed.

Lemma inv_cache_insert (k v : string) (st st' : State) :
  db st' = db st -> qrcodes st' = qrcodes st ->
  rdb st' = <[k := v]> (rdb st) ->
  (exists r, In r (db st) /\ matches k r = true /\ original r = v) ->
  inv st -> inv st'.
Proof.
  intros Hdb Hqr Hrdb Hrow (Hok & Hcache & Hscan & Himg).
  split; [now rewrite Hdb|]. split; [|split].
  - intros k' v' Hk. rewrite Hrdb in Hk. rewrite Hdb.
    destruct (decide (k = k')) as [<-|Hne].
    + rewrite lookup_insert_eq in Hk. injection Hk as <-. exact Hrow.
    + rewrite lookup_insert_ne in Hk by exact Hne. now apply Hcache.
  - now rewrite Hdb.
  - unfold images_ok in *. now rewrite Hdb, Hqr.
Qed.

Lemma inv_evict (k : string) (st : State) : inv st -> inv (evict k st).
Proof.
  intros (Hok & Hcache & Hscan & Himg).
  split; [exact Hok|]. split; [|split; assumption].
  intros k' v' Hk. simpl in Hk.
  destruct (decide (k = k')) as [<-|Hne].
  - rewrite lookup_delete_eq in Hk. discriminate.
  - rewrite lookup_delete_ne in Hk by exact Hne. now apply Hcache.
Qed.

Lemma inv_qr_write (sh : string) (st st' : State) :
  db st' = db st -> rdb st' = rdb st ->
  qrcodes st' = <[qr_path sh := sh]> (qrcodes st) ->
  inv st -> inv st'.
Proof.
  intros Hdb Hrdb Hqr (Hok & Hcache & Hscan & Himg).
  split; [now rewrite Hdb|]. split; [|split].
  - intros k v Hk. rewrite Hrdb in Hk. rewrite Hdb. now apply Hcache.
  - now rewrite Hdb.
  - unfold images_ok in *. rewrite Hdb, Hqr.
    eapply Forall_impl; [exact Himg|]. intros r [Hp Hf]. split; [exact Hp|].
    destruct (decide (qr_path sh = qr_code r)) as [Heq|Hne].
    + rewrite <- Heq, lookup_insert_eq. f_equal.
      apply qr_path_inj. now rewrite Heq.
    + now rewrite lookup_insert_ne.
Qed.

Lemma inv_insert (e : Env) (req : URL) (sh : string) (i : Z) (st st' : State) :
  sh <> "" ->
  (if String.eqb (CustomShort req) "" then True else sh = CustomShort req) ->
  Exec_insert e (set_QRCode (qr_path sh) (set_Short sh req))
    (db st) (db_seq st) = inr (db st', i) ->
  rdb st' = rdb st -> qrcodes st' = qrcodes st ->
  qrcodes st !! qr_path sh = Some sh ->
  inv st -> inv st'.
Proof.
  intros Hne Hcu Hins Hrdb Hqr Hfile (Hok & Hcache & Hscan & Himg).
  pose proof Hins as Hins'.
  apply Exec_insert_inv in Hins'. destruct Hins' as (_ & _ & _ & _ & Hdb).
  simpl in Hdb.
  split; [|split; [|split]].
  - eapply db_ok_insert; [exact Hok| | |exact Hins].
    + exact Hne.
    + simpl. destruct (String.eqb_spec (CustomShort req) "") as [H0|H0];
        [now left | now right].
  - intros k v Hk. rewrite Hrdb in Hk.
    destruct (Hcache k v Hk) as (r & Hin & Hm & Ho).
    exists r. rewrite Hdb. split; [apply in_or_app; now left | now split].
  - unfold rows_scannable in *. rewrite Hdb. apply Forall_app.
    split; [exact Hscan|]. constructor; [simpl; discriminate | constructor].
  - unfold images_ok in *. rewrite Hdb, Hqr. apply Forall_app.
    split; [exact Himg|]. constructor; [|constructor]. simpl. now split.
Qed.

(** *** The invariant, handler by handler *)

Lemma inv_bump (e : Env) (tok : string) (r : Row) (st : State) :
  inv st -> inv (bump e tok r st).
Proof.
  intros Hinv. pose proof (db_bump e tok r st) as Hdb.
  pose proof (rdb_bump e tok r st) as Hrdb.
  destruct (bump_frame e tok r st) as (_ & Hqr & _).
  destruct (update_fails e).
  - now apply (inv_fields st).
  - eapply inv_update; [apply wrap_int_range|exact Hdb|exact Hrdb|exact Hqr|exact Hinv].
Qed.

Lemma bump_keeps_row (e : Env) (tok : string) (r r0 : Row) (st : State) :
  In r0 (db st) ->
  exists r', In r' (db (bump e tok r st)) /\ link_of r' = link_of r0.
Proof.
  intros Hin. rewrite db_bump. destruct (update_fails e).
  - now exists r0.
  - eapply (in_link_of (db st) _ []); [|exact Hin].
    now rewrite link_of_update, app_nil_r.
Qed.

Lemma inv_rdb_Set (e : Env) (k v : string) (st : State) :
  (exists r, In r (db st) /\ matches k r = true /\ original r = v) ->
  inv st -> inv (rdb_Set e k v st).
Proof.
  intros Hrow Hinv. pose proof (rdb_rdb_Set e k v st) as Hrdb.
  pose proof (db_rdb_Set e k v st) as Hdb.
  destruct (rdb_Set_frame e k v st) as (_ & Hqr & _).
  destruct (set_fails e).
  - now apply (inv_fields st).
  - eapply inv_cache_insert; eassumption.
Qed.

Lemma inv_redirectURL (e : Env) (tok : string) (st : State) :
  inv st -> inv (fst (redirectURL e tok st)).
Proof.
  intros Hinv.
  destruct (redirectURL_effect e tok st)
    as [(l & resp & Heq & _)|[(url & r & _ & _ & _ & _ & Heq)|(r & _ & _ & _ & Hf & _ & Heq)]];
    rewrite Heq; simpl.
  - now apply (inv_fields st).
  - now apply inv_bump.
  - apply inv_rdb_Set; [|now apply inv_bump].
    apply find_some in Hf. destruct Hf as [Hin Hm].
    destruct (bump_keeps_row e tok r r st Hin) as (r' & Hin' & Hl).
    exists r'. split; [exact Hin'|].
    rewrite (link_of_matches tok _ _ Hl). split; [exact Hm|].
    apply link_of_fields in Hl. tauto.
Qed.

Lemma inv_getURLs (e : Env) (st : State) : inv st -> inv (fst (getURLs e st)).
Proof.
  intros Hinv. unfold getURLs.
  destruct (select_fails e); [now apply (inv_fields st)|].
  destruct (scan_rows (db st)); [now apply (inv_fields st) | exact Hinv].
Qed.

Section Reached.
Variable isURL : string -> bool.

Lemma inv_shortenURL (e : Env) (body : option URL) (st : State) :
  inv st -> inv (fst (shortenURL isURL e body st)).
Proof.
  intros Hinv.
  destruct (shortenURL_effect isURL e body st)
    as [(_ & Hdb & _ & Hrdb & [Hqr|[sh Hqr]])
       |(req & sh & i & _ & _ & Hne & Hrnd & _ & Hins & _ & Hqr & Hres)].
  - now apply (inv_fields st).
  - now apply (inv_qr_write sh st).
  - set (st' := fst (shortenURL isURL e body st)) in *.
    set (stA := mkState (db st) (db_seq st) (rdb st)
                  (<[qr_path sh := sh]> (qrcodes st)) (seededRand st) (logged st)).
    set (stB := mkState (db st') i (rdb st) (qrcodes st') (seededRand st')
                  (logged st')).
    assert (HA : inv stA) by now apply (inv_qr_write sh st).
    assert (HB : inv stB).
    { apply (inv_insert e req sh i stA stB); try assumption; try reflexivity.
      - destruct (String.eqb (CustomShort req) ""); [exact I | tauto].
      - simpl. apply lookup_insert_eq. }
    destruct Hres as [(_ & _ & Hrdb)|(_ & _ & Hrdb)].
    + destruct (set_fails e).
      * now apply (inv_fields stB).
      * apply (inv_cache_insert sh (Original req) stB); try assumption;
          try reflexivity.
        apply Exec_insert_inv in Hins. destruct Hins as (_ & _ & _ & _ & Hdb).
        simpl. rewrite Hdb. eexists. split; [apply in_or_app; right; now left|].
        split; [apply matches_own_short | reflexivity].
    + now apply (inv_fields stB).
Qed.

Lemma inv_handle (e : Env) (rq : Request) (st : State) :
  inv st -> inv (fst (handle isURL e rq st)).
Proof.
  destruct rq as [body|tok|]; simpl.
  - apply inv_shortenURL.
  - apply inv_redirectURL.
  - apply inv_getURLs.
Qed.

Lemma inv_run (evs : list Event) (st : State) :
  inv st -> inv (fst (run isURL evs st)).
Proof.
  revert st. induction evs as [|ev evs IH]; intros st Hinv; [exact Hinv|].
  destruct ev as [e rq|k]; simpl.
  - pose proof (inv_handle e rq st Hinv) as H1.
    destruct (handle isURL e rq st) as [st1 r]. simpl in H1.
    specialize (IH st1 H1).
    destruct (run isURL evs st1) as [st2 rs]. exact IH.
  - apply IH. now apply inv_evict.
Qed.

Lemma inv_reachable (evs : list Event) (rnd : Rand) :
  inv (fst (run isURL evs (init rnd))).
Proof. apply inv_run. apply inv_init. Qed.

End Reached.

End Effects.

(** ** Further properties of the handlers *)

Module Extras.
Import Token Shorrt Invariants ShorrtFacts Effects.

(** *** [stringWithCharset] *)

(** [stringWithCharset] over any alphabet: with a non-empty alphabet it
    returns a string of the asked length made of symbols of the alphabet;
    with the empty alphabet and a positive length it panics (in [Intn]);
    with length 0 it returns the empty string and draws nothing. *)
Theorem stringWithCharset_spec (n : nat) (cs : string) (r : Rand) :
  (cs <> "" ->
   exists s r', stringWithCharset n cs r = Some (s, r')
     /\ String.length s = n
     /\ Forall (fun c => In c (list_ascii_of_string cs)) (list_ascii_of_string s))
  /\ (cs = "" -> (0 < n)%nat -> stringWithCharset n cs r = None)
  /\ stringWithCharset 0 cs r = Some ("", r).
Proof.
  split; [|split].
  - intros Hcs.
    destruct (TokenFacts.fill_total n cs r) as (b & r' & Hb & Hlen & Hall).
    { destruct cs; [congruence | simpl; lia]. }
    exists (string_of_list_ascii b), r'. unfold stringWithCharset.
    rewrite Hb. simpl. split; [reflexivity|]. split.
    + now rewrite TokenFacts.length_string_of_list_ascii.
    + now rewrite list_ascii_of_string_of_list_ascii.
  - intros -> Hn. destruct n as [|n]; [lia|]. reflexivity.
  - reflexivity.
Qed.

(** *** Tokens and rows *)

Section OnReachable.
Variable isURL : string -> bool.

(** In every state the server reaches from the empty table, no two rows
    have the same short token, and at most one row answers to a token in
    the query [WHERE short = ? OR custom_short = ?]. *)
Theorem one_link_per_token (evs : list Event) (rnd : Rand) :
  let st := fst (run isURL evs (init rnd)) in
  NoDup (map short (db st))
  /\ forall tok r1 r2,
       In r1 (db st) -> In r2 (db st) ->
       matches tok r1 = true -> matches tok r2 = true -> r1 = r2.
Proof.
  intros st. pose proof (db_ok_reachable isURL evs rnd) as Hok. fold st in Hok.
  split; [apply Hok|].
  intros tok r1 r2. now apply matches_unique.
Qed.

Lemma handle_links_prefix (e : Env) (rq : Request) (st : State) :
  exists extra,
    map link_of (db (fst (handle isURL e rq st)))
    = (map link_of (db st) ++ extra)%list.
Proof.
  destruct rq as [body|tok|]; simpl.
  - destruct (shortenURL_cases isURL e body st) as [[-> _]|Hins].
    + exists []. now rewrite app_nil_r.
    + destruct Hins as (req & u & i & _ & _ & _ & _ & _ & _ & _ & _ & Hins & _).
      apply Exec_insert_inv in Hins. destruct Hins as (_ & _ & _ & _ & ->).
      rewrite map_app. eexists. reflexivity.
  - exists []. rewrite app_nil_r.
    destruct (redirectURL_db e tok st) as [->|(c & _ & ->)]; [reflexivity|].
    apply link_of_update.
  - exists []. now rewrite app_nil_r, getURLs_db.
Qed.

Lemma run_links_prefix (evs : list Event) (st : State) :
  exists extra,
    map link_of (db (fst (run isURL evs st)))
    = (map link_of (db st) ++ extra)%list.
Proof.
  revert st. induction evs as [|ev evs IH]; intros st.
  - exists []. simpl. now rewrite app_nil_r.
  - destruct ev as [e rq|k]; simpl.
    + destruct (handle_links_prefix e rq st) as [x1 H1].
      destruct (handle isURL e rq st) as [st1 r]. simpl in H1.
      destruct (IH st1) as [x2 H2].
      destruct (run isURL evs st1) as [st2 rs]. simpl in H2 |- *.
      exists (x1 ++ x2)%list. now rewrite H2, H1, app_assoc.
    + apply (IH (evict k st)).
Qed.

(** Links persist: whatever requests are served and whatever the cache
    loses, the rows of the table stay, in their order, with their id,
    original URL, token, image name, custom token and expiration date; only
    access counts change and rows are only added at the end. *)
Theorem links_persist (evs : list Event) (st : State) :
  exists extra,
    map link_of (db (fst (run isURL evs st)))
    = (map link_of (db st) ++ extra)%list.
Proof. exact (run_links_prefix evs st). Qed.

(** Every redirect goes to the stored URL: in a state the server reaches, a
    resolution answered by a redirect is a 301 to the original URL of the one
    row that answers to the token, whether the URL came from the cache or
    from the table. *)
Theorem redirect_goes_to_stored_original
  (evs : list Event) (rnd : Rand) (e : Env) (tok : string) (code : Z) (loc : string) :
  let st := fst (run isURL evs (init rnd)) in
  snd (redirectURL e tok st) = Redirect code loc ->
  code = StatusMovedPermanently
  /\ exists r, In r (db st) /\ matches tok r = true /\ original r = loc
       /\ forall r', In r' (db st) -> matches tok r' = true -> r' = r.
Proof.
  intros st Hresp.
  destruct (inv_reachable isURL evs rnd) as (Hok & Hcache & _). fold st in Hok, Hcache.
  destruct (redirectURL_effect e tok st)
    as [(l & resp & Heq & Hr)
       |[(url & r & _ & Hhit & _ & Hf & Heq)|(r & _ & _ & _ & Hf & _ & Heq)]];
    rewrite Heq in Hresp; simpl in Hresp.
  - destruct Hr as [->|[->| ->]]; discriminate.
  - injection Hresp as <- <-. split; [reflexivity|].
    apply find_some in Hf. destruct Hf as [Hin Hm].
    destruct (Hcache tok url Hhit) as (r0 & Hin0 & Hm0 & Ho0).
    assert (r0 = r) by (eapply matches_unique; eassumption). subst r0.
    exists r. repeat split; try assumption.
    intros r' Hin' Hm'. eapply matches_unique; eassumption.
  - injection Hresp as <- <-. split; [reflexivity|].
    apply find_some in Hf. destruct Hf as [Hin Hm].
    exists r. repeat split; try assumption.
    intros r' Hin' Hm'. eapply matches_unique; eassumption.
Qed.

(** An unknown token is not found: in a state the server reaches, resolving
    a token no row answers to, with the cache and the store readable, is
    answered 404 "URL not found" and only logs (the cache cannot hold such a
    token). *)
Theorem unknown_token_not_found
  (evs : list Event) (rnd : Rand) (e : Env) (tok : string) :
  let st := fst (run isURL evs (init rnd)) in
  (forall r, In r (db st) -> matches tok r = false) ->
  get_fails e = false ->
  select_fails e = false ->
  redirectURL e tok st
  = (Println (LogStr "No rows found for short link: " tok) st, not_found).
Proof.
  intros st Hnone Hget Hsel.
  destruct (inv_reachable isURL evs rnd) as (_ & Hcache & _). fold st in Hcache.
  assert (Hmiss : rdb st !! tok = None).
  { destruct (rdb st !! tok) as [v|] eqn:Hk; [|reflexivity].
    destruct (Hcache tok v Hk) as (r & Hin & Hm & _).
    rewrite (Hnone r Hin) in Hm. discriminate. }
  unfold redirectURL. rewrite (rdb_Get_miss _ _ _ Hget Hmiss).
  unfold resolve_miss, QueryRow. rewrite Hsel.
  destruct (find (matches tok) (db st)) as [r|] eqn:Hf; [|reflexivity].
  apply find_some in Hf. destruct Hf as [Hin Hm].
  rewrite (Hnone r Hin) in Hm. discriminate.
Qed.

End OnReachable.

(** A resolution never touches the images, the random source or the id
    sequence, and never adds, drops or rewrites a link; when it is not
    answered by a redirect (404, 410, 500) the table and the cache are
    exactly what they were. *)
Theorem failed_resolution_changes_nothing (e : Env) (tok : string) (st : State) :
  let st' := fst (redirectURL e tok st) in
  (db_seq st' = db_seq st /\ qrcodes st' = qrcodes st
   /\ seededRand st' = seededRand st
   /\ map link_of (db st') = map link_of (db st))
  /\ (is_redirect (snd (redirectURL e tok st)) = false ->
      db st' = db st /\ rdb st' = rdb st).
Proof.
  intros st'. subst st'. split.
  - assert (Hl : map link_of (db (fst (redirectURL e tok st))) = map link_of (db st)).
    { destruct (redirectURL_db e tok st) as [->|(c & _ & ->)]; [reflexivity|].
      apply link_of_update. }
    destruct (redirectURL_effect e tok st)
      as [(l & resp & Heq & _)
         |[(url & r & _ & _ & _ & _ & Heq)|(r & _ & _ & _ & _ & _ & Heq)]].
    + rewrite Heq in Hl |- *. simpl in *. now repeat split.
    + rewrite Heq in Hl |- *. simpl fst in *.
      destruct (bump_frame e tok r st) as (H1 & H2 & H3). now repeat split.
    + rewrite Heq in Hl |- *. simpl fst in *.
      destruct (bump_frame e tok r st) as (H1 & H2 & H3).
      destruct (rdb_Set_frame e tok (original r) (bump e tok r st)) as (K1 & K2 & K3).
      rewrite K1, K2, K3. now repeat split.
  - intros Hno. destruct (failed_resolution_frame e tok st Hno) as [l ->].
    now split.
Qed.

(** *** Listing *)

Lemma scan_url_record (r : Row) (c : string) :
  custom_short r = Some c -> scan_url r = inr (record_of r c).
Proof. intros H. unfold scan_url. now rewrite H. Qed.

Lemma scan_rows_ok (d : list Row) :
  rows_scannable d ->
  exists urls, scan_rows d = inr urls
    /\ Forall2 (fun r u => custom_short r = Some (CustomShort u)
                           /\ u = record_of r (CustomShort u)) d urls.
Proof.
  induction d as [|r d IH]; intros Hs.
  - exists []. split; [reflexivity | constructor].
  - inversion Hs as [|? ? Hr Hd]; subst.
    destruct (custom_short r) as [c|] eqn:Hc; [|congruence].
    destruct (IH Hd) as (urls & Hscan & Hall).
    exists (record_of r c :: urls). simpl.
    rewrite (scan_url_record r c Hc), Hscan. split; [reflexivity|].
    constructor; [|exact Hall]. simpl. now split.
Qed.

Lemma scan_rows_inv (d : list Row) (urls : list URL) :
  scan_rows d = inr urls -> rows_scannable d.
Proof.
  revert urls. induction d as [|r d IH]; intros urls H; [constructor|].
  simpl in H. unfold scan_url in H.
  destruct (custom_short r) as [c|] eqn:Hc; [|discriminate].
  destruct (scan_rows d) as [err|us] eqn:Hd; [discriminate|].
  constructor; [congruence | now apply (IH us)].
Qed.

Lemma Forall2_In_l {A B : Type} (P : A -> B -> Prop) (l : list A) (k : list B) (x : A) :
  Forall2 P l k -> In x l -> exists y, In y k /\ P x y.
Proof.
  induction 1 as [|a b l k Hab Hlk IH]; intros Hin; [contradiction|].
  destruct Hin as [->|Hin].
  - exists b. split; [now left | exact Hab].
  - destruct (IH Hin) as (y & Hy & Hp). exists y. split; [now right | exact Hp].
Qed.

(** [getURLs] only reads: it leaves the table, the cache, the images, the id
    sequence and the random source as they are.  It answers 200 with the
    list exactly when the query works and no row has a NULL [custom_short];
    otherwise it answers 500. *)
Theorem getURLs_answers (e : Env) (st : State) :
  let st' := fst (getURLs e st) in
  (db st' = db st /\ db_seq st' = db_seq st /\ rdb st' = rdb st
   /\ qrcodes st' = qrcodes st /\ seededRand st' = seededRand st)
  /\ ((exists urls, snd (getURLs e st) = JSON StatusOK (BURLs urls))
      <-> select_fails e = false /\ rows_scannable (db st))
  /\ (snd (getURLs e st) = internal_error
      \/ exists urls, snd (getURLs e st) = JSON StatusOK (BURLs urls)).
Proof.
  unfold getURLs. destruct (select_fails e) eqn:Hsel; simpl.
  { split; [now repeat split|]. split; [|now left].
    split; [intros [urls H]; discriminate | intros [H _]; discriminate]. }
  destruct (scan_rows (db st)) as [err|urls] eqn:Hscan; simpl.
  - split; [now repeat split|]. split; [|now left].
    split; [intros [urls H]; discriminate|].
    intros [_ Hs]. destruct (scan_rows_ok _ Hs) as (urls & Hok & _). congruence.
  - split; [now repeat split|]. split; [|right; now exists urls].
    split; [intros _; split; [reflexivity|]; now apply (scan_rows_inv _ urls)|].
    intros _. now exists urls.
Qed.

Section Listing.
Variable isURL : string -> bool.

(** In a state the server reaches, the listing never fails on a row: with
    the query working it answers 200 with one record per row, in the order
    of the table, each carrying the row's id, original URL, token, image
    name, custom token, expiration date and access count; the state is
    untouched. *)
Theorem getURLs_lists_every_row (evs : list Event) (rnd : Rand) (e : Env) :
  let st := fst (run isURL evs (init rnd)) in
  select_fails e = false ->
  exists urls,
    getURLs e st = (st, JSON StatusOK (BURLs urls))
    /\ Forall2 (fun r u => custom_short r = Some (CustomShort u)
                           /\ u = record_of r (CustomShort u)) (db st) urls.
Proof.
  intros st Hsel.
  destruct (inv_reachable isURL evs rnd) as (_ & _ & Hscan & _). fold st in Hscan.
  destruct (scan_rows_ok _ Hscan) as (urls & Hok & Hall).
  exists urls. unfold getURLs. rewrite Hsel, Hok. now split.
Qed.

(** Create, then list: after a create answered 200 with a record, the
    listing (the query working) contains that record with access count 0,
    whatever access count the request carried. *)
Theorem created_link_is_listed
  (evs : list Event) (rnd : Rand) (e1 e2 : Env) (req u : URL) :
  let st := fst (run isURL evs (init rnd)) in
  let st1 := fst (shortenURL isURL e1 (Some req) st) in
  snd (shortenURL isURL e1 (Some req) st) = JSON StatusOK (BURL u) ->
  select_fails e2 = false ->
  exists urls,
    snd (getURLs e2 st1) = JSON StatusOK (BURLs urls)
    /\ In (mkURL (ID u) (Original u) (Short u) (QRCode u) (CustomShort u)
                 (ExpirationDate u) 0) urls.
Proof.
  intros st st1 Hresp Hsel.
  assert (Hinv : inv st1).
  { apply inv_shortenURL. apply inv_reachable. }
  destruct Hinv as (_ & _ & Hscan & _).
  destruct (scan_rows_ok _ Hscan) as (urls & Hok & Hall).
  exists urls. unfold getURLs. rewrite Hsel, Hok. split; [reflexivity|].
  destruct (created_link isURL e1 req st) as (u' & i & Hr & _ & _ & _ & _ & Hdb & _).
  { now rewrite Hresp. }
  rewrite Hresp in Hr. injection Hr as ->. fold st1 in Hdb.
  destruct (Forall2_In_l _ _ _
              (mkRow i (Original u') (Short u') (QRCode u')
                     (Some (CustomShort u')) (Some (ExpirationDate u')) 0) Hall)
    as (y & Hy & Hc & Hrec).
  { rewrite Hdb. apply in_or_app. right. now left. }
  simpl in Hc. injection Hc as Hc. rewrite Hrec in Hy. rewrite <- Hc in Hy.
  exact Hy.
Qed.

End Listing.

(** *** Creating *)



Section Creating.
Variable isURL : string -> bool.


(** What a create answered 200 has done: the record returned carries the
    request's original URL, custom token, expiration date and access count;
    its token is the custom token when there is one (no random value is
    drawn) and otherwise a fresh 6-symbol alphanumeric one; its image name is
    qrcodes/<token>.png and its id the next of the sequence.  One row with
    these values and access count 0 has been added at the end of the table,
    the image has been written, and the cache maps the token to the original
    URL unless the cache write failed. *)
Theorem create_response_shape (e : Env) (req u : URL) (st : State) :
  snd (shortenURL isURL e (Some req) st) = JSON StatusOK (BURL u) ->
  let st' := fst (shortenURL isURL e (Some req) st) in
  (Original u = Original req /\ CustomShort u = CustomShort req
   /\ ExpirationDate u = ExpirationDate req /\ AccessCount u = AccessCount req)
  /\ QRCode u = qr_path (Short u)
  /\ ID u = next_id (db st) (db_seq st)
  /\ (if String.eqb (CustomShort req) ""
      then String.length (Short u) = 6%nat
           /\ Forall (fun c => is_alnum c = true) (list_ascii_of_string (Short u))
           /\ generateShortLink (seededRand st) = Some (Short u, seededRand st')
      else Short u = CustomShort req /\ seededRand st' = seededRand st)
  /\ db st' = (db st ++ [mkRow (ID u) (Original u) (Short u) (QRCode u)
                               (Some (CustomShort u)) (Some (ExpirationDate u)) 0])%list
  /\ qrcodes st' = <[QRCode u := Short u]> (qrcodes st)
  /\ rdb st' = if set_fails e then rdb st else <[Short u := Original u]> (rdb st).
Proof.
  intros Hresp st'.
  destruct (shortenURL_effect isURL e (Some req) st)
    as [(Hno & _)|(req' & sh & i & [= <-] & _ & _ & Hrnd & _ & Hins & _ & Hqr & Hres)].
  { rewrite Hresp in Hno. discriminate. }
  destruct Hres as [(_ & Hr & Hrdb)|(_ & Hr & _)];
    [|rewrite Hresp in Hr; discriminate].
  rewrite Hresp in Hr. injection Hr as ->.
  apply Exec_insert_inv in Hins. destruct Hins as (_ & _ & _ & Hi & Hdb).
  fold st' in Hrnd, Hqr, Hrdb, Hdb. simpl.
  split; [now repeat split|]. split; [reflexivity|]. split; [exact Hi|].
  split; [|split; [exact Hdb|split; [exact Hqr | exact Hrdb]]].
  destruct (String.eqb (CustomShort req) ""); [|exact Hrnd].
  destruct (TokenFacts.generateShortLink_total (seededRand st))
    as (s0 & r0 & Hg & Hlen & Hall & _).
  rewrite Hrnd in Hg. injection Hg as <- <-.
  split; [exact Hlen|]. split; [|exact Hrnd].
  eapply Forall_impl; [exact Hall|]. intros c [_ Hc]. exact Hc.
Qed.

(** Round trip on an unexpired link: in a state the server reaches, after a
    create answered 200, resolving the returned token before the link's
    expiration date, with the cache and the store readable, redirects to the
    original URL, whether or not the create managed to warm the cache. *)
Theorem round_trip_before_expiration
  (evs : list Event) (rnd : Rand) (e1 e2 : Env) (req u : URL) :
  let st := fst (run isURL evs (init rnd)) in
  let st1 := fst (shortenURL isURL e1 (Some req) st) in
  snd (shortenURL isURL e1 (Some req) st) = JSON StatusOK (BURL u) ->
  get_fails e2 = false ->
  select_fails e2 = false ->
  Before (ExpirationDate req) (now e2) = false ->
  snd (redirectURL e2 (Short u) st1)
  = Redirect StatusMovedPermanently (Original req).
Proof.
  intros st st1 Hresp Hget Hsel Hexp.
  assert (Hinv : inv st1) by (apply inv_shortenURL; apply inv_reachable).
  destruct Hinv as (Hok & Hcache & _).
  destruct (created_link isURL e1 req st) as (u' & i & Hr & Ho & Hx & _ & _ & Hdb & _).
  { now rewrite Hresp. }
  rewrite Hresp in Hr. injection Hr as ->. fold st1 in Hdb. simpl.
  set (row := mkRow i (Original u') (Short u') (QRCode u')
                    (Some (CustomShort u')) (Some (ExpirationDate u')) 0) in *.
  assert (Hin : In row (db st1)).
  { rewrite Hdb. apply in_or_app. right. now left. }
  assert (Hm : matches (Short u') row = true) by apply matches_own_short.
  assert (Hf : find (matches (Short u')) (db st1) = Some row)
    by now apply find_the_link.
  unfold redirectURL.
  destruct (rdb st1 !! Short u') as [url|] eqn:Hk.
  - rewrite (rdb_Get_hit _ _ _ _ Hget Hk).
    unfold resolve_hit. rewrite (QueryRow_found _ _ _ _ Hsel Hf). simpl.
    destruct (Hcache _ _ Hk) as (r0 & Hin0 & Hm0 & Ho0).
    assert (r0 = row) by (eapply matches_unique; eassumption). subst r0.
    simpl in Ho0. now rewrite <- Ho0, Ho.
  - rewrite (rdb_Get_miss _ _ _ Hget Hk).
    unfold resolve_miss. rewrite (QueryRow_found _ _ _ _ Hsel Hf).
    unfold has_expired. simpl. rewrite Hx, Hexp. simpl. now rewrite Ho.
Qed.


End Creating.

(** *** Resolving twice *)

Lemma find_after_bump (e : Env) (tok : string) (r : Row) (st : State) :
  find (matches tok) (db st) = Some r ->
  exists r', find (matches tok) (db (bump e tok r st)) = Some r'.
Proof.
  intros Hf. rewrite db_bump. destruct (update_fails e).
  - now exists r.
  - eexists. apply find_update. exact Hf.
Qed.

(** A resolved token stays resolved: when a resolution is answered by the
    redirect and its cache write (if any) works, the next resolution of the
    same token, the cache and the store readable, is answered by the redirect
    to the same URL, whatever the clock shows then. *)
Theorem resolved_twice_same_location
  (e1 e2 : Env) (tok loc : string) (st : State) :
  snd (redirectURL e1 tok st) = Redirect StatusMovedPermanently loc ->
  set_fails e1 = false ->
  get_fails e2 = false ->
  select_fails e2 = false ->
  snd (redirectURL e2 tok (fst (redirectURL e1 tok st)))
  = Redirect StatusMovedPermanently loc.
Proof.
  intros Hresp Hset Hget Hsel.
  destruct (redirectURL_effect e1 tok st)
    as [(l & resp & Heq & Hr)
       |[(url & r & _ & Hhit & _ & Hf & Heq)|(r & _ & _ & _ & Hf & _ & Heq)]];
    rewrite Heq in Hresp |- *; simpl in Hresp; simpl fst.
  - destruct Hr as [->|[->| ->]]; discriminate.
  - injection Hresp as ->.
    destruct (find_after_bump e1 tok r st Hf) as [r' Hf'].
    unfold redirectURL.
    rewrite (rdb_Get_hit e2 tok loc); [|exact Hget|now rewrite rdb_bump].
    unfold resolve_hit. now rewrite (QueryRow_found _ _ _ _ Hsel Hf').
  - injection Hresp as <-.
    destruct (find_after_bump e1 tok r st Hf) as [r' Hf'].
    unfold redirectURL.
    rewrite (rdb_Get_hit e2 tok (original r));
      [|exact Hget|rewrite rdb_rdb_Set, Hset; apply lookup_insert_eq].
    unfold resolve_hit. rewrite db_rdb_Set.
    now rewrite (QueryRow_found _ _ _ _ Hsel Hf').
Qed.

(** *** The cache, and creates that fail *)

Section CacheAndFailures.
Variable isURL : string -> bool.

(** The cache only knows links of the table: in a state the server reaches,
    every cache entry has a key that answers to a row of the table and holds
    that row's original URL. *)
Theorem cache_entries_belong_to_links
  (evs : list Event) (rnd : Rand) (k v : string) :
  let st := fst (run isURL evs (init rnd)) in
  rdb st !! k = Some v ->
  exists r, In r (db st) /\ matches k r = true /\ original r = v.
Proof.
  intros st Hk. destruct (inv_reachable isURL evs rnd) as (_ & Hcache & _).
  now apply Hcache.
Qed.


(** When a create succeeds: exactly when the request validates, the image
    is written, the token (the custom one, or else the generated one) is not
    the [short] of any row, the custom token as sent (empty when there is
    none) is not the [custom_short] of any row, and neither the INSERT nor
    [LastInsertId] fails.  The original URL plays no part: the same URL can
    be shortened again under another custom token. *)
Theorem create_succeeds_iff (e : Env) (req : URL) (st : State) :
  is_ok (snd (shortenURL isURL e (Some req) st)) = true
  <-> validate_Struct isURL req = true
      /\ qr_fails e = false /\ insert_fails e = false /\ last_id_fails e = false
      /\ custom_taken (CustomShort req) (db st) = false
      /\ exists sh rnd,
           (if String.eqb (CustomShort req) ""
            then generateShortLink (seededRand st) = Some (sh, rnd)
            else sh = CustomShort req)
           /\ short_taken sh (db st) = false.
Proof.
  rewrite shortenURL_Some.
  destruct (validate_Struct isURL req) eqn:Hval; cbn [negb];
    [|split; [discriminate | intros [H _]; discriminate]].
  assert (Hpick : exists sh rnd,
            (if negb (String.eqb (CustomShort req) "")
             then Some (CustomShort req, seededRand st)
             else generateShortLink (seededRand st)) = Some (sh, rnd)
            /\ (forall sh' rnd',
                  (if String.eqb (CustomShort req) ""
                   then generateShortLink (seededRand st) = Some (sh', rnd')
                   else sh' = CustomShort req) -> sh' = sh)
            /\ (if String.eqb (CustomShort req) ""
                then generateShortLink (seededRand st) = Some (sh, rnd)
                else sh = CustomShort req)).
  { destruct (String.eqb (CustomShort req) ""); cbn [negb].
    - destruct (TokenFacts.generateShortLink_total (seededRand st))
        as (sh & rnd & Hgen & _).
      exists sh, rnd. split; [exact Hgen|]. split; [|exact Hgen].
      intros sh' rnd' H. congruence.
    - exists (CustomShort req), (seededRand st). repeat split. now intros. }
  destruct Hpick as (sh & rnd & -> & Huniq & Hsh).
  destruct (qr_fails e);
    [split; [discriminate | intros (_ & H & _); discriminate]|].
  cbv zeta. unfold Exec_insert. simpl.
  destruct (insert_fails e);
    [split; [discriminate | intros (_ & _ & H & _); discriminate]|].
  destruct (short_taken sh (db st)) eqn:Hst.
  { split; [discriminate|].
    intros (_ & _ & _ & _ & _ & sh' & rnd' & Hsh' & Hfree).
    rewrite (Huniq sh' rnd' Hsh') in Hfree. congruence. }
  destruct (custom_taken (CustomShort req) (db st)) eqn:Hct;
    [split; [discriminate | intros (_ & _ & _ & _ & H & _); discriminate]|].
  destruct (last_id_fails e);
    [split; [discriminate | intros (_ & _ & _ & H & _); discriminate]|].
  split; [|reflexivity].
  intros _. repeat split. exists sh, rnd. now split.
Qed.

End CacheAndFailures.

(** *** The answers a client can get *)

Section Answers.
Variable isURL : string -> bool.

(** The answers of the two writing handlers.  A resolution is answered by a
    301 redirect, 404 "URL not found", 410 "URL has expired" or 500 "Internal
    server error", nothing else.  A create is answered 200 with a record, 400
    with the binding or validation error, or 500 with the error of the image
    writer or of the store; it never panics in the token generator. *)
Theorem answers_are_classified (e : Env) (tok : string) (body : option URL) (st : State) :
  ((exists loc, snd (redirectURL e tok st) = Redirect StatusMovedPermanently loc)
   \/ snd (redirectURL e tok st) = not_found
   \/ snd (redirectURL e tok st) = expired
   \/ snd (redirectURL e tok st) = internal_error)
  /\ ((exists u, snd (shortenURL isURL e body st) = JSON StatusOK (BURL u))
      \/ snd (shortenURL isURL e body st) = JSON StatusBadRequest (BErr ErrBind)
      \/ snd (shortenURL isURL e body st) = JSON StatusBadRequest (BErr ErrValidation)
      \/ (exists err, snd (shortenURL isURL e body st)
                      = JSON StatusInternalServerError (BErr err)
                      /\ (err = ErrQRCode \/ err = ErrStore
                          \/ exists col, err = ErrUnique col))).
Proof.
  split.
  - destruct (redirectURL_effect e tok st)
      as [(l & resp & Heq & Hr)
         |[(url & r & _ & _ & _ & _ & Heq)|(r & _ & _ & _ & _ & _ & Heq)]];
      rewrite Heq; simpl.
    + tauto.
    + left. now exists url.
    + left. now exists (original r).
  - destruct body as [req|]; [|right; left; reflexivity].
    rewrite shortenURL_Some.
    destruct (validate_Struct isURL req); cbn [negb];
      [|right; right; left; reflexivity].
    assert (Hpick : exists sh rnd,
              (if negb (String.eqb (CustomShort req) "")
               then Some (CustomShort req, seededRand st)
               else generateShortLink (seededRand st)) = Some (sh, rnd)).
    { destruct (String.eqb (CustomShort req) ""); cbn [negb].
      - destruct (TokenFacts.generateShortLink_total (seededRand st))
          as (sh & rnd & Hgen & _). now exists sh, rnd.
      - now eexists _, _. }
    destruct Hpick as (sh & rnd & ->).
    destruct (qr_fails e).
    { right. right. right. exists ErrQRCode. split; [reflexivity | now left]. }
    cbv zeta. unfold Exec_insert.
    destruct (insert_fails e).
    { right. right. right. exists ErrStore. split; [reflexivity | tauto]. }
    destruct (short_taken _ (db st)).
    { right. right. right. eexists. split; [reflexivity|]. right. right.
      now eexists. }
    destruct (custom_taken _ (db st)).
    { right. right. right. eexists. split; [reflexivity|]. right. right.
      now eexists. }
    destruct (last_id_fails e).
    { right. right. right. exists ErrStore. split; [reflexivity | tauto]. }
    left. eexists. reflexivity.
Qed.

End Answers.

End Extras.

(** ** The further properties at work *)

Module ExtrasAtWork.
Import Token Shorrt Samples Invariants MoreSamples ShorrtFacts Effects Extras.

Lemma run_evs_ex1 : fst (run sample_isURL evs_ex1 (init rnd0)) = st_ex1_live.
Proof. reflexivity. Qed.

Lemma stringWithCharset_spec_witness :
  "ab" <> ""
  /\ exists s r', stringWithCharset 3 "ab" rnd0 = Some (s, r')
       /\ String.length s = 3%nat
       /\ Forall (fun c => In c (list_ascii_of_string "ab")) (list_ascii_of_string s).
Proof.
  split; [discriminate|].
  apply (proj1 (stringWithCharset_spec 3 "ab" rnd0)). discriminate.
Defined.

Lemma one_link_per_token_witness :
  (In row_ex1 (db st_ex1_live) /\ matches "ex1" row_ex1 = true)
  /\ row_ex1 = row_ex1.
Proof.
  split; [split; [left; reflexivity | reflexivity]|].
  apply (proj2 (one_link_per_token sample_isURL evs_ex1 rnd0) "ex1" row_ex1 row_ex1);
    first [left; reflexivity | reflexivity].
Defined.

Lemma failed_resolution_changes_nothing_witness :
  is_redirect (snd (redirectURL (healthy t2024) "nope" st_ex1_live)) = false
  /\ db (fst (redirectURL (healthy t2024) "nope" st_ex1_live)) = db st_ex1_live
  /\ rdb (fst (redirectURL (healthy t2024) "nope" st_ex1_live)) = rdb st_ex1_live.
Proof.
  split; [reflexivity|].
  apply (proj2 (failed_resolution_changes_nothing (healthy t2024) "nope" st_ex1_live)).
  reflexivity.
Defined.

Lemma redirect_goes_to_stored_original_witness :
  snd (redirectURL (healthy t2024) "ex1" (fst (run sample_isURL evs_ex1 (init rnd0))))
    = Redirect 301 "https://example.com"
  /\ 301 = StatusMovedPermanently
  /\ exists r, In r (db (fst (run sample_isURL evs_ex1 (init rnd0))))
       /\ matches "ex1" r = true /\ original r = "https://example.com"
       /\ forall r', In r' (db (fst (run sample_isURL evs_ex1 (init rnd0)))) ->
                     matches "ex1" r' = true -> r' = r.
Proof.
  split; [reflexivity|].
  apply (redirect_goes_to_stored_original sample_isURL evs_ex1 rnd0
           (healthy t2024) "ex1" 301 "https://example.com").
  reflexivity.
Defined.

Lemma unknown_token_not_found_witness :
  let st := fst (run sample_isURL evs_ex1 (init rnd0)) in
  (forall r, In r (db st) -> matches "nope" r = false)
  /\ redirectURL (healthy t2024) "nope" st
     = (Println (LogStr "No rows found for short link: " "nope") st, not_found).
Proof.
  assert (H : forall r, In r (db (fst (run sample_isURL evs_ex1 (init rnd0)))) ->
                        matches "nope" r = false).
  { intros r [<-|[]]. reflexivity. }
  split; [exact H|].
  apply (unknown_token_not_found sample_isURL evs_ex1 rnd0 (healthy t2024) "nope");
    [exact H | reflexivity | reflexivity].
Defined.

Lemma getURLs_lists_every_row_witness :
  let st := fst (run sample_isURL evs_ex1 (init rnd0)) in
  select_fails (healthy t2024) = false
  /\ exists urls,
       getURLs (healthy t2024) st = (st, JSON StatusOK (BURLs urls))
       /\ Forall2 (fun r u => custom_short r = Some (CustomShort u)
                              /\ u = record_of r (CustomShort u)) (db st) urls.
Proof.
  split; [reflexivity|].
  apply (getURLs_lists_every_row sample_isURL evs_ex1 rnd0 (healthy t2024)).
  reflexivity.
Defined.

Lemma created_link_is_listed_witness :
  let st1 := fst (shortenURL sample_isURL (healthy t2023) (Some (req_ex1 t2025))
                    (fst (run sample_isURL [] (init rnd0)))) in
  snd (shortenURL sample_isURL (healthy t2023) (Some (req_ex1 t2025))
         (fst (run sample_isURL [] (init rnd0)))) = JSON StatusOK (BURL url_ex1)
  /\ exists urls,
       snd (getURLs (healthy t2024) st1) = JSON StatusOK (BURLs urls)
       /\ In (mkURL (ID url_ex1) (Original url_ex1) (Short url_ex1)
                    (QRCode url_ex1) (CustomShort url_ex1)
                    (ExpirationDate url_ex1) 0) urls.
Proof.
  split; [reflexivity|].
  apply (created_link_is_listed sample_isURL [] rnd0 (healthy t2023)
           (healthy t2024) (req_ex1 t2025) url_ex1); reflexivity.
Defined.


Lemma create_response_shape_witness :
  let st := init rnd0 in
  let st' := fst (shortenURL sample_isURL (healthy t2023) (Some req_plain) st) in
  let u := mkURL 1 "https://example.com" "abcdef" "qrcodes/abcdef.png" ""
                 zeroTime 0 in
  snd (shortenURL sample_isURL (healthy t2023) (Some req_plain) st)
    = JSON StatusOK (BURL u)
  /\ (Original u = Original req_plain /\ CustomShort u = CustomShort req_plain
      /\ ExpirationDate u = ExpirationDate req_plain
      /\ AccessCount u = AccessCount req_plain)
  /\ QRCode u = qr_path (Short u)
  /\ ID u = next_id (db st) (db_seq st)
  /\ (if String.eqb (CustomShort req_plain) ""
      then String.length (Short u) = 6%nat
           /\ Forall (fun c => is_alnum c = true) (list_ascii_of_string (Short u))
           /\ generateShortLink (seededRand st) = Some (Short u, seededRand st')
      else Short u = CustomShort req_plain /\ seededRand st' = seededRand st)
  /\ db st' = (db st ++ [mkRow (ID u) (Original u) (Short u) (QRCode u)
                               (Some (CustomShort u)) (Some (ExpirationDate u)) 0])%list
  /\ qrcodes st' = <[QRCode u := Short u]> (qrcodes st)
  /\ rdb st' = if set_fails (healthy t2023) then rdb st
               else <[Short u := Original u]> (rdb st).
Proof.
  split; [reflexivity|].
  apply (create_response_shape sample_isURL (healthy t2023) req_plain
           (mkURL 1 "https://example.com" "abcdef" "qrcodes/abcdef.png" ""
                  zeroTime 0) (init rnd0)).
  reflexivity.
Defined.

Lemma round_trip_before_expiration_witness :
  let st1 := fst (shortenURL sample_isURL (cache_write_down t2023)
                    (Some (req_ex1 t2025)) (fst (run sample_isURL [] (init rnd0)))) in
  (snd (shortenURL sample_isURL (cache_write_down t2023) (Some (req_ex1 t2025))
          (fst (run sample_isURL [] (init rnd0)))) = JSON StatusOK (BURL url_ex1)
   /\ Before (ExpirationDate (req_ex1 t2025)) (now (healthy t2024)) = false)
  /\ snd (redirectURL (healthy t2024) (Short url_ex1) st1)
     = Redirect StatusMovedPermanently (Original (req_ex1 t2025)).
Proof.
  split; [split; reflexivity|].
  apply (round_trip_before_expiration sample_isURL [] rnd0 (cache_write_down t2023)
           (healthy t2024) (req_ex1 t2025) url_ex1); reflexivity.
Defined.


Lemma resolved_twice_same_location_witness :
  let st := evict "ex1" st_ex1_live in
  snd (redirectURL (healthy t2024) "ex1" st)
    = Redirect StatusMovedPermanently "https://example.com"
  /\ snd (redirectURL (healthy t2025) "ex1"
            (fst (redirectURL (healthy t2024) "ex1" st)))
     = Redirect StatusMovedPermanently "https://example.com".
Proof.
  split; [vm_compute; reflexivity|].
  apply (resolved_twice_same_location (healthy t2024) (healthy t2025) "ex1"
           "https://example.com" (evict "ex1" st_ex1_live));
    vm_compute; reflexivity.
Defined.

Lemma cache_entries_belong_to_links_witness :
  let st := fst (run sample_isURL evs_ex1 (init rnd0)) in
  rdb st !! "ex1" = Some "https://example.com"
  /\ exists r, In r (db st) /\ matches "ex1" r = true
               /\ original r = "https://example.com".
Proof.
  split; [reflexivity|].
  apply (cache_entries_belong_to_links sample_isURL evs_ex1 rnd0 "ex1"
           "https://example.com").
  reflexivity.
Defined.


End ExtrasAtWork.
